(** * India ETF vs GDP correlation pipeline

    A shallow embedding of [india_pearson.py] and [streamlit_app.py].
    Both scripts are straight-line pandas pipelines; every pandas call the
    scripts make is written out below as a function on lists, named after
    the call it stands for, and the scripts' per-ETF loops are written as
    folds over an explicit state (the accumulated results and the messages
    printed).

    Numbers.  A pandas float cell is modelled by [fval]: an exact rational,
    an infinity, or NaN (pandas' null).  Arithmetic is exact (no rounding,
    no signed zero); division by zero and the other IEEE special cases are
    kept.  The square root used by the correlation coefficient is a
    parameter [sqrtQ] of the correlation functions. *)

From Stdlib Require Import Ascii String.
From Stdlib Require Import List Arith ZArith QArith Qreduction Qround Bool Lia Lqa.
From Stdlib Require Import Permutation Sorted.
Import ListNotations.

Local Open Scope Q_scope.

(** ** Float cells *)

Inductive fval : Type :=
| Fin (q : Q)
| Inf (neg : bool)
| NaN.

Definition Qzerob (q : Q) : bool := Qeq_bool q 0.
Definition Qnegb (q : Q) : bool := negb (Qle_bool 0 q).

Definition notna (v : fval) : bool :=
  match v with NaN => false | _ => true end.

Definition isna (v : fval) : bool := negb (notna v).

Definition fadd (a b : fval) : fval :=
  match a, b with
  | Fin x, Fin y => Fin (Qred (x + y))
  | Inf s, Fin _ | Fin _, Inf s => Inf s
  | Inf s, Inf t => if Bool.eqb s t then Inf s else NaN
  | _, _ => NaN
  end.

Definition fsub (a b : fval) : fval :=
  match a, b with
  | Fin x, Fin y => Fin (Qred (x - y))
  | Inf s, Fin _ => Inf s
  | Fin _, Inf s => Inf (negb s)
  | Inf s, Inf t => if Bool.eqb s t then NaN else Inf s
  | _, _ => NaN
  end.

Definition fmul (a b : fval) : fval :=
  match a, b with
  | Fin x, Fin y => Fin (Qred (x * y))
  | Inf s, Fin y | Fin y, Inf s =>
      if Qzerob y then NaN else Inf (xorb s (Qnegb y))
  | Inf s, Inf t => Inf (xorb s t)
  | _, _ => NaN
  end.

Definition fdiv (a b : fval) : fval :=
  match a, b with
  | Fin x, Fin y =>
      if Qzerob y then (if Qzerob x then NaN else Inf (Qnegb x))
      else Fin (Qred (x / y))
  | Fin _, Inf _ => Fin 0
  | Inf s, Fin y => Inf (xorb s (Qnegb y))
  | _, _ => NaN
  end.

(** Ordering of non-NaN cells, as the rank computation sees it. *)
Definition fltb (a b : fval) : bool :=
  match a, b with
  | Fin x, Fin y => negb (Qle_bool y x)
  | Inf true, Fin _ | Fin _, Inf false | Inf true, Inf false => true
  | _, _ => false
  end.

Definition feqb (a b : fval) : bool :=
  match a, b with
  | Fin x, Fin y => Qeq_bool x y
  | Inf s, Inf t => Bool.eqb s t
  | _, _ => false
  end.

Definition is_fin (v : fval) : bool :=
  match v with Fin _ => true | _ => false end.

(** ** Series and the pandas calls on them

    A [series] is a pandas Series: cells with their index labels.  The
    label of a quarterly row is the number of its calendar quarter,
    [4 * year + (month - 1) / 3]; the quarter-end date pandas prints for it
    is [quarter_end] below. *)

Definition label := Z.
Definition series := list (label * fval).

Definition index (s : series) : list label := map fst s.
Definition values (s : series) : list fval := map snd s.
Definition with_index (ix : list label) (vs : list fval) : series := combine ix vs.

(** Python's [xs[a:b]]. *)
Definition slice {A : Type} (a b : nat) (xs : list A) : list A :=
  firstn (b - a) (skipn a xs).

Definition Qsum (l : list Q) : Q := fold_right Qplus 0 l.
Definition Qlen {A : Type} (l : list A) : Q := inject_Z (Z.of_nat (length l)).
Definition Qmean (l : list Q) : Q := Qsum l / Qlen l.

(** Sample covariance with [ddof = 1], as [np.cov] computes it. *)
Definition Qcov (xs ys : list Q) : Q :=
  let mx := Qmean xs in
  let my := Qmean ys in
  Qsum (map (fun p => (fst p - mx) * (snd p - my)) (combine xs ys))
  / (Qlen xs - 1).

Definition Qclip (lo hi q : Q) : Q :=
  if Qle_bool q lo then lo else if Qle_bool hi q then hi else q.

Definition fin_of (v : fval) : option Q :=
  match v with Fin q => Some q | _ => None end.

Fixpoint all_fin (vs : list fval) : option (list Q) :=
  match vs with
  | [] => Some []
  | v :: vs' =>
      match fin_of v, all_fin vs' with
      | Some q, Some qs => Some (q :: qs)
      | _, _ => None
      end
  end.

Section Correlation.

(** The square root of numpy ([np.sqrt], [** 0.5]). *)
Variable sqrtQ : Q -> Q.

(** [np.corrcoef(a, b)[0, 1]] on two NaN-free columns of equal length:
    the covariance divided by both standard deviations, clipped to
    [-1, 1].  With one observation the [ddof = 1] divisor is zero and
    numpy returns 0/0 = NaN; with a constant column the variance and the
    covariance are both zero, again 0/0 = NaN.  An infinite cell makes the
    mean infinite and the deviations [inf - inf], so the result is NaN
    as well. *)
Definition corrcoef (a b : list fval) : fval :=
  match all_fin a, all_fin b with
  | Some xs, Some ys =>
      if (length xs <=? 1)%nat then NaN
      else
        let vx := Qcov xs xs in
        let vy := Qcov ys ys in
        if Qzerob vx || Qzerob vy then NaN
        else Fin (Qred (Qclip (-1) 1
                   (Qcov xs ys / sqrtQ (Qred vx) / sqrtQ (Qred vy))))
  | _, _ => NaN
  end.

(** [Series.rank()] with the defaults [method='average'],
    [na_option='keep']: a cell that ties with [e - 1] others and has [l]
    smaller cells occupies the sorted positions [l+1 .. l+e], whose
    average is [l + (e + 1) / 2].  NaN cells keep NaN and are not
    counted. *)
Definition count_lt (vs : list fval) (v : fval) : nat :=
  length (filter (fun u => fltb u v) vs).
Definition count_eq (vs : list fval) (v : fval) : nat :=
  length (filter (fun u => feqb u v) vs).

Definition rank (vs : list fval) : list fval :=
  map (fun v =>
         if notna v then
           Fin (Qred (inject_Z (Z.of_nat (count_lt vs v))
                      + (inject_Z (Z.of_nat (count_eq vs v)) + 1) / 2))
         else NaN) vs.

Definition Series_rank (s : series) : series :=
  with_index (index s) (rank (values s)).

(** [nanops.nancorr(a, b, method, min_periods=None)]: keep the positions
    where both cells are non-null, return NaN when fewer than
    [min_periods = 1] remain, else the coefficient. *)
Definition valid_pairs (a b : list fval) : list (fval * fval) :=
  filter (fun p => notna (fst p) && notna (snd p)) (combine a b).

Inductive method := pearson | spearman.

Definition nancorr (m : method) (a b : list fval) : fval :=
  let v := valid_pairs a b in
  if (length v <? 1)%nat then NaN
  else match m with
       | pearson => corrcoef (map fst v) (map snd v)
       | spearman => corrcoef (rank (map fst v)) (rank (map snd v))
       end.

(** [Series.align(other, join='inner')]: two series over equal indexes
    are returned as they are; otherwise the rows are joined on equal
    labels. *)
Definition list_Z_eqb (a b : list Z) : bool :=
  if list_eq_dec Z.eq_dec a b then true else false.

Definition Series_align (a b : series) : series * series :=
  if list_Z_eqb (index a) (index b) then (a, b)
  else
    let j := flat_map (fun x =>
               map (fun y => (x, y))
                   (filter (fun y => Z.eqb (fst y) (fst x)) b)) a in
    (map fst j, map snd j).

(** [Series.corr(other, method)]. *)
Definition Series_corr (m : method) (a b : series) : fval :=
  let '(this, other) := Series_align a b in
  if (length this =? 0)%nat then NaN
  else nancorr m (values this) (values other).

(** *** Rolling windows

    [Series.rolling(window=w)] with the defaults: [min_periods = w],
    right-aligned windows.  The window of position [i] is
    [start i .. i] with [start i = max 0 (i + 1 - w)]; a position whose
    window holds fewer than [min_periods] non-null observations gets
    NaN. *)
Definition window_start (w i : nat) : nat := (i + 1 - w)%nat.
Definition window {A : Type} (w i : nat) (xs : list A) : list A :=
  slice (window_start w i) (i + 1) xs.

(** [Rolling.apply(func, raw=False)]: [func] receives the window as a
    Series carrying its index labels. *)
Definition rolling_apply (w : nat) (func : series -> fval) (x : series)
  : list fval :=
  map (fun i =>
         let win := window w i x in
         if (w <=? length (filter notna (values win)))%nat
         then func win else NaN)
      (seq 0 (length x)).

(** [Rolling.corr(other)].  pandas first replaces the columns by
    [x + 0 * y] and [y + 0 * x], so a cell becomes null as soon as the
    cell beside it is null or infinite; the rolling means and variances
    of a window are null unless each column has [min_periods]
    observations in it, and otherwise combine into the coefficient of
    the window's rows. *)
Definition prep_binary (x y : fval) : fval :=
  if is_fin y then x else NaN.

Definition rolling_corr (w : nat) (x y : series) : list fval :=
  let X := map (fun p => prep_binary (snd (fst p)) (snd (snd p))) (combine x y) in
  let Y := map (fun p => prep_binary (snd (snd p)) (snd (fst p))) (combine x y) in
  map (fun i =>
         let wx := window w i X in
         let wy := window w i Y in
         if (w <=? length (filter notna wx))%nat
            && (w <=? length (filter notna wy))%nat
         then corrcoef wx wy
         else NaN)
      (seq 0 (length X)).

End Correlation.

(** ** Dates and calendar quarters *)

Record date : Type := mkdate { year : Z; month : Z; day : Z }.

Definition quarter_of (d : date) : label :=
  (4 * year d + (month d - 1) / 3)%Z.

(** The quarter-end date pandas labels the quarter with (['Q'], ['QE']). *)
Definition quarter_end (q : label) : date :=
  let m := (3 * (q mod 4) + 3)%Z in
  mkdate (q / 4) m (if (m =? 3)%Z || (m =? 12)%Z then 31 else 30).

(** ** CSV files and the loaders *)

Inductive exn : Type :=
| FileNotFoundError
| EmptyDataError
| KeyError (column : string)
| ValueError (path : string).

(** A file is its physical lines, each split into cells (blank lines,
    which pandas passes over, are left out).  Of a file's columns only the
    date and the value column are followed. *)
Definition csv := list (list string).

Record DataFrame : Type := mkDataFrame {
  columns : list string;
  rows : list (list string)
}.

(** [pd.read_csv(path, skiprows=...)]: the listed physical line numbers
    are discarded, the first line left is the header. *)
Definition skip_lines (skiprows : list nat) (lines : csv) : csv :=
  map snd
      (filter (fun p => negb (existsb (Nat.eqb (fst p)) skiprows))
              (combine (seq 0 (length lines)) lines)).

Definition read_csv (skiprows : list nat) (file : option csv)
  : exn + DataFrame :=
  match file with
  | None => inl FileNotFoundError
  | Some lines =>
      match skip_lines skiprows lines with
      | [] => inl EmptyDataError
      | header :: data => inr (mkDataFrame header data)
      end
  end.

(** [str.strip()] on ASCII text. *)
Definition isspace (c : ascii) : bool :=
  let n := nat_of_ascii c in
  ((9 <=? n) && (n <=? 13) || (28 <=? n) && (n <=? 32))%nat.

Fixpoint lstrip (s : list ascii) : list ascii :=
  match s with
  | c :: s' => if isspace c then lstrip s' else s
  | [] => []
  end.

Definition strip (s : string) : string :=
  string_of_list_ascii
    (rev (lstrip (rev (lstrip (list_ascii_of_string s))))).

(** [df.columns = df.columns.str.strip()] *)
Definition columns_str_strip (df : DataFrame) : DataFrame :=
  mkDataFrame (map strip (columns df)) (rows df).

Definition str_in (s : string) (l : list string) : bool :=
  existsb (String.eqb s) l.

Fixpoint position (s : string) (l : list string) : option nat :=
  match l with
  | [] => None
  | c :: l' => if String.eqb s c then Some O
               else option_map S (position s l')
  end.

(** [df[name]] for a name the header holds once: the cells of the column;
    a short line reads as null cells. *)
Definition getitem (df : DataFrame) (name : string) : exn + list string :=
  match position name (columns df) with
  | None => inl (KeyError name)
  | Some k => inr (map (fun r => nth k r EmptyString) (rows df))
  end.

Section Loaders.

(** [pd.to_datetime(..., errors='coerce')] and
    [pd.to_numeric(..., errors='coerce')] on one cell: the date or the
    finite number the cell denotes, or null. *)
Variable parse_date : string -> option date.
Variable parse_num : string -> option Q.

(** [df.dropna(subset=[date, value])] after the two coercions. *)
Definition coerce_dropna (ds vs : list string) : list (date * Q) :=
  flat_map (fun p =>
              match parse_date (fst p), parse_num (snd p) with
              | Some d, Some v => [(d, v)]
              | _, _ => []
              end) (combine ds vs).

(** [df.set_index('Date').resample('Q').mean()]: one row for every
    calendar quarter from the earliest to the latest date present, the
    mean of the quarter's cells, NaN for a quarter without cells. *)
Definition quarter_values (q : label) (obs : list (date * Q)) : list Q :=
  map snd (filter (fun o => (quarter_of (fst o) =? q)%Z) obs).

Definition mean (vs : list Q) : fval :=
  match vs with
  | [] => NaN
  | _ => Fin (Qred (Qmean vs))
  end.

Definition resample_Q_mean (obs : list (date * Q)) : series :=
  match map (fun o => quarter_of (fst o)) obs with
  | [] => []
  | q :: qs =>
      let lo := fold_right Z.min q qs in
      let hi := fold_right Z.max q qs in
      map (fun k => let q' := (lo + Z.of_nat k)%Z in
                    (q', mean (quarter_values q' obs)))
          (seq 0 (Z.to_nat (hi - lo + 1)))
  end.

(** The cleaning both scripts apply to a frame once its columns are
    known to exist. *)
Definition clean_resample (df : DataFrame) (dcol vcol : string)
  : exn + series :=
  match getitem df dcol, getitem df vcol with
  | inr ds, inr vs => inr (resample_Q_mean (coerce_dropna ds vs))
  | inl e, _ => inl e
  | _, inl e => inl e
  end.

(** [streamlit_app.load_etf_csv] *)
Definition load_etf_csv (path : string) (file : option csv)
  : exn + series :=
  match read_csv [1%nat] file with
  | inl e => inl e
  | inr df =>
      let df := columns_str_strip df in
      if negb (str_in "Date" (columns df))
         || negb (str_in "Price" (columns df))
      then inl (ValueError path)
      else clean_resample df "Date" "Price"
  end.

(** [streamlit_app.load_gdp_csv], and lines 15-20 of
    [india_pearson.py]. *)
Definition load_gdp_csv (file : option csv) : exn + series :=
  match read_csv [] file with
  | inl e => inl e
  | inr df => clean_resample (columns_str_strip df) "Date" "GDP_USD"
  end.

End Loaders.

(** ** Joining the two quarterly frames *)

Record row : Type := mkrow { Date : label; Price : fval; GDP_USD : fval }.

Definition frame := list row.

(** [pd.merge(left, right, how='inner')] on the quarter label (the index
    in [india_pearson.py], the [Date] column in [streamlit_app.py]). *)
Definition merge_inner (left right : series) : frame :=
  flat_map (fun x =>
              map (fun y => mkrow (fst x) (snd x) (snd y))
                  (filter (fun y => (fst y =? fst x)%Z) right))
           left.

(** [merged.dropna()] *)
Definition dropna (m : frame) : frame :=
  filter (fun r => notna (Price r) && notna (GDP_USD r)) m.

Definition col_Price (m : frame) : series :=
  map (fun r => (Date r, Price r)) m.
Definition col_GDP_USD (m : frame) : series :=
  map (fun r => (Date r, GDP_USD r)) m.

(** ** Derived series *)

(** [s / s.iloc[0]] on a non-empty column. *)
Definition div_by_first (xs : list fval) : list fval :=
  match xs with
  | [] => []
  | x0 :: _ => map (fun x => fdiv x x0) xs
  end.

(** [s.shift(1)] *)
Definition shift (xs : list fval) : list fval := NaN :: removelast xs.

(** [s.pct_change()]: [s / s.shift(1) - 1]. *)
Definition pct_change (xs : list fval) : list fval :=
  map (fun p => fsub (fdiv (fst p) (snd p)) (Fin 1)) (combine xs (shift xs)).

(** [s.add(1)] *)
Definition add (c : Q) (xs : list fval) : list fval :=
  map (fun v => fadd v (Fin c)) xs.

(** [s.cumprod()] with [skipna=True]: null cells stay null and count as
    the factor 1. *)
Fixpoint cumprod_from (acc : fval) (xs : list fval) : list fval :=
  match xs with
  | [] => []
  | x :: xs' =>
      if isna x then NaN :: cumprod_from acc xs'
      else let acc' := fmul acc x in acc' :: cumprod_from acc' xs'
  end.

Definition cumprod (xs : list fval) : list fval := cumprod_from (Fin 1) xs.

(** Lines 62-63 and 97-98 of [india_pearson.py], for one column. *)
Definition normalized (xs : list fval) : list fval := div_by_first xs.
Definition cumulative_growth (xs : list fval) : list fval :=
  cumprod (add 1 (pct_change xs)).

(** ** Text helpers used by the loops *)

(** [s.replace(old, "")] for a non-empty [old]. *)
Fixpoint remove_from (skip : nat) (old s : string) : string :=
  match s with
  | EmptyString => EmptyString
  | String c s' =>
      match skip with
      | S k => remove_from k old s'
      | O => if String.prefix old s
             then remove_from (String.length old - 1) old s'
             else String c (remove_from O old s')
      end
  end.

Definition str_remove (old s : string) : string := remove_from O old s.

Definition str_rev (s : string) : string :=
  string_of_list_ascii (rev (list_ascii_of_string s)).

Definition endswith (s suffix : string) : bool :=
  String.prefix (str_rev suffix) (str_rev s).

(** [sorted(...)] on file names. *)
Fixpoint insert_by_name {A : Type} (x : string * A) (l : list (string * A))
  : list (string * A) :=
  match l with
  | [] => [x]
  | y :: l' => if String.leb (fst x) (fst y) then x :: l
               else y :: insert_by_name x l'
  end.

Definition sorted_by_name {A : Type} (l : list (string * A))
  : list (string * A) :=
  fold_right insert_by_name [] l.

(** [round(x, n)] of Python: nearest multiple of [10^-n], ties to even. *)
Definition Qround_half_even (q : Q) : Z :=
  let f := Qfloor q in
  match Qcompare (q - inject_Z f) (1 # 2) with
  | Lt => f
  | Gt => (f + 1)%Z
  | Eq => if Z.even f then f else (f + 1)%Z
  end.

Definition round (n : nat) (v : fval) : fval :=
  match v with
  | Fin q =>
      let s := inject_Z (10 ^ Z.of_nat n) in
      Fin (Qred (inject_Z (Qround_half_even (q * s)) / s))
  | _ => v
  end.

Definition index_min (m : frame) : label :=
  match map Date m with
  | [] => 0%Z
  | q :: qs => fold_right Z.min q qs
  end.

Definition index_max (m : frame) : label :=
  match map Date m with
  | [] => 0%Z
  | q :: qs => fold_right Z.max q qs
  end.

(** ** The two scripts *)

Section Scripts.

Variable sqrtQ : Q -> Q.
Variable parse_date : string -> option date.
Variable parse_num : string -> option Q.

(** *** [india_pearson.py] *)

Record result : Type := mkresult {
  ETF : string;
  Pearson_Correlation : fval;
  Quarters_Used : nat;
  Start : date;
  End_ : date
}.

(** What the script prints. *)
Inductive line : Type :=
| SKIPPED_columns (etf : string)
| SKIPPED_overlap (etf : string) (quarters : nat)
| ERROR (etf : string) (e : exn).

Record state : Type := mkstate {
  results : list result;
  stdout : list line
}.

Definition print (l : line) (st : state) : state :=
  mkstate (results st) (stdout st ++ [l]).

Definition append (r : result) (st : state) : state :=
  mkstate (results st ++ [r]) (stdout st).

Definition etf_files : list string :=
  ["FLIN_daily.csv"; "EPI_daily.csv"; "SMIN_daily.csv"; "PIN_daily.csv";
   "NFTY_daily.csv"; "INDY_daily.csv"; "INDA_daily.csv"]%string.

(** Lines 44-45: the aligned frame of one ETF. *)
Definition aligned (etf_df gdp_df : series) : frame :=
  dropna (merge_inner etf_df gdp_df).

(** Lines 78-86. *)
Definition window8 : nat := 8.

Definition rolling_pearson (w : nat) (merged : frame) : list fval :=
  rolling_corr sqrtQ w (col_Price merged) (col_GDP_USD merged).

(** [merged.loc[labels, 'GDP_USD']] *)
Definition loc_GDP_USD (merged : frame) (labels : list label) : series :=
  flat_map (fun l => col_GDP_USD
                       (filter (fun r => (Date r =? l)%Z) merged))
           labels.

Definition spearman_corr (merged : frame) (x : series) : fval :=
  let price_rank := Series_rank x in
  let gdp_rank := Series_rank (loc_GDP_USD merged (index x)) in
  Series_corr sqrtQ pearson price_rank gdp_rank.

Definition rolling_spearman (w : nat) (merged : frame) : list fval :=
  rolling_apply w (spearman_corr merged) (col_Price merged).

(** Lines 43-59: align with GDP, check the overlap, record the
    coefficient. *)
Definition india_correlate (etf_name : string) (etf_df gdp_df : series)
           (st : state) : state :=
  let merged := aligned etf_df gdp_df in
  if (length merged <? 8)%nat
  then print (SKIPPED_overlap etf_name (length merged)) st
  else
    let corr := Series_corr sqrtQ pearson (col_Price merged)
                            (col_GDP_USD merged) in
    append (mkresult etf_name (round 4 corr) (length merged)
                     (quarter_end (index_min merged))
                     (quarter_end (index_max merged))) st.

(** The body of the loop (lines 27-117).  The plotting calls draw what
    the definitions above compute and leave the state alone. *)
Definition india_etf (fs : string -> option csv) (gdp_df : series)
           (file : string) (st : state) : state :=
  let etf_name := str_remove "_daily.csv" file in
  match read_csv [1%nat] (fs file) with
  | inl e => print (ERROR etf_name e) st
  | inr df =>
      let df := columns_str_strip df in
      if negb (str_in "Date" (columns df))
         || negb (str_in "Price" (columns df))
      then print (SKIPPED_columns etf_name) st
      else
        match clean_resample parse_date parse_num df "Date" "Price" with
        | inl e => print (ERROR etf_name e) st
        | inr etf_df => india_correlate etf_name etf_df gdp_df st
        end
  end.

Definition india_loop (fs : string -> option csv) (gdp_df : series)
           (files : list string) (st : state) : state :=
  fold_left (fun st file => india_etf fs gdp_df file st) files st.

(** The script up to the summary chart; the GDP file is read outside
    any [try]. *)
Definition india_pearson (fs : string -> option csv) (gdp_file : string)
  : exn + state :=
  match load_gdp_csv parse_date parse_num (fs gdp_file) with
  | inl e => inl e
  | inr gdp_df => inr (india_loop fs gdp_df etf_files (mkstate [] []))
  end.

(** *** [streamlit_app.py] *)

Record entry : Type := mkentry { r_pearson : fval; r_spearman : fval }.

Inductive warning : Type :=
| Skipping (file : string) (e : exn)
| No_overlapping_dates (etf : string).

Record app : Type := mkapp {
  correlations : list (string * entry);
  warnings : list warning
}.

(** [d[k] = v] on a dict that keeps insertion order. *)
Fixpoint setitem (k : string) (v : entry) (d : list (string * entry))
  : list (string * entry) :=
  match d with
  | [] => [(k, v)]
  | (k', v') :: d' => if String.eqb k k' then (k, v) :: d'
                      else (k', v') :: setitem k v d'
  end.

Definition st_warning (w : warning) (a : app) : app :=
  mkapp (correlations a) (warnings a ++ [w]).

(** Lines 52-60: join with GDP, check for an empty join, record both
    coefficients. *)
Definition streamlit_correlate (etf_name : string) (etf_df gdp_df : series)
           (a : app) : app :=
  let merged := merge_inner etf_df gdp_df in
  if (length merged =? 0)%nat
  then st_warning (No_overlapping_dates etf_name) a
  else
    let pearson_corr := Series_corr sqrtQ pearson (col_Price merged)
                                    (col_GDP_USD merged) in
    let spearman_corr := Series_corr sqrtQ spearman (col_Price merged)
                                     (col_GDP_USD merged) in
    mkapp (setitem etf_name (mkentry pearson_corr spearman_corr)
                   (correlations a))
          (warnings a).

(** The body of the loop (lines 43-71). *)
Definition streamlit_etf (gdp_df : series) (f : string * csv) (a : app)
  : app :=
  let file := fst f in
  if negb (endswith file ".csv") then a
  else
    let etf_name := str_remove "_daily.csv" file in
    match load_etf_csv parse_date parse_num file (Some (snd f)) with
    | inl e => st_warning (Skipping file e) a
    | inr etf_df => streamlit_correlate etf_name etf_df gdp_df a
    end.

Definition streamlit_loop (gdp_df : series) (files : list (string * csv))
           (a : app) : app :=
  fold_left (fun a f => streamlit_etf gdp_df f a) files a.

(** The script: [listdir] is the content of the data directory. *)
Definition streamlit_app (gdp : option csv) (listdir : list (string * csv))
  : exn + app :=
  match load_gdp_csv parse_date parse_num gdp with
  | inl e => inl e
  | inr gdp_df =>
      inr (streamlit_loop gdp_df
             (sorted_by_name
                (filter (fun f => endswith (fst f) "_daily.csv") listdir))
             (mkapp [] []))
  end.

End Scripts.

(** *** The summary chart of [india_pearson.py] (line 120)

    [pd.DataFrame(results)] of an empty list has no columns, so
    [sort_values(by="Pearson_Correlation")] raises [KeyError]; otherwise
    the rows are put in descending order of the coefficient, nulls last.
    Among equal coefficients the rows keep their order here; pandas'
    default sort does not promise one. *)
Definition precedes (a b : fval) : bool :=
  match a, b with
  | _, NaN => true
  | NaN, _ => false
  | _, _ => negb (fltb a b)
  end.

Fixpoint insert_desc (r : result) (l : list result) : list result :=
  match l with
  | [] => [r]
  | y :: l' =>
      if precedes (Pearson_Correlation r) (Pearson_Correlation y)
      then r :: l else y :: insert_desc r l'
  end.

Definition sort_values_desc (rs : list result) : list result :=
  fold_right insert_desc [] rs.

Definition df_results (rs : list result) : exn + list result :=
  match rs with
  | [] => inl (KeyError "Pearson_Correlation")
  | _ => inr (sort_values_desc rs)
  end.

(** The script with its last step: a failure of the summary chart ends
    the run, whatever the loop printed. *)
Definition india_pearson_main (sqrtQ : Q -> Q)
           (parse_date : string -> option date)
           (parse_num : string -> option Q)
           (fs : string -> option csv) (gdp_file : string)
  : exn + list result :=
  match india_pearson sqrtQ parse_date parse_num fs gdp_file with
  | inl e => inl e
  | inr st => df_results (results st)
  end.

(** The cells of one line under the two column names. *)
Definition cell (header : list string) (name : string) (r : list string)
  : string :=
  match position name header with
  | Some k => nth k r EmptyString
  | None => EmptyString
  end.

(** ** Concrete readers for the examples

    ISO dates ([YYYY-MM-DD]), plain decimal numbers, and a square root
    correct to six decimals. *)

Definition digit_of (c : ascii) : option Z :=
  let n := nat_of_ascii c in
  if ((48 <=? n) && (n <=? 57))%nat then Some (Z.of_nat (n - 48)) else None.

Fixpoint digits_from (acc : Z) (s : list ascii) : option Z :=
  match s with
  | [] => Some acc
  | c :: s' =>
      match digit_of c with
      | Some d => digits_from (10 * acc + d)%Z s'
      | None => None
      end
  end.

Definition natural (s : list ascii) : option Z :=
  match s with
  | [] => None
  | _ => digits_from 0%Z s
  end.

Fixpoint split_at (sep : ascii) (s : list ascii) : list (list ascii) :=
  match s with
  | [] => [[]]
  | c :: s' =>
      if Ascii.eqb c sep then [] :: split_at sep s'
      else match split_at sep s' with
           | w :: ws => (c :: w) :: ws
           | [] => [[c]]
           end
  end.

Definition iso_date (s : string) : option date :=
  match map natural (split_at "-"%char (list_ascii_of_string s)) with
  | [Some y; Some m; Some d] =>
      if ((1 <=? m) && (m <=? 12) && (1 <=? d) && (d <=? 31))%Z
      then Some (mkdate y m d) else None
  | _ => None
  end.

Definition decimal (s : string) : option Q :=
  match split_at "."%char (list_ascii_of_string s) with
  | [i] => option_map inject_Z (natural i)
  | [i; f] =>
      match natural i, natural f with
      | Some a, Some b =>
          Some (Qred (inject_Z a
                      + inject_Z b / inject_Z (10 ^ Z.of_nat (length f))))
      | _, _ => None
      end
  | _ => None
  end.

Definition sqrt6 (q : Q) : Q :=
  let d := Zpos (Qden q) in
  Qred (inject_Z (Z.sqrt (Qnum q * d * 10 ^ 12)) / inject_Z (d * 10 ^ 6)).

(** ** The invariants of an aligned frame, and sample frames *)

(** Both fields of every record are non-null. *)
Definition non_null (m : frame) : bool :=
  forallb (fun r => notna (Price r) && notna (GDP_USD r)) m.

(** A column whose cells are all equal. *)
Definition constant (vs : list fval) : bool :=
  match vs with
  | [] => true
  | v :: vs' => forallb (feqb v) vs'
  end.

Definition constantQ (xs : list Q) : bool :=
  match xs with
  | [] => true
  | x :: xs' => forallb (Qeq_bool x) xs'
  end.

Definition all_finite (vs : list fval) : bool := forallb is_fin vs.

(** The records of positions [i-w+1 .. i]. *)
Definition records (w i : nat) (m : frame) : frame := window w i m.

(** The value [Rolling.corr] gives one position, in terms of the
    position's records. *)
Definition rolling_pearson_at (sqrtQ : Q -> Q) (w i : nat) (m : frame)
  : fval :=
  let W := records w i m in
  let wx := map (fun r => prep_binary (Price r) (GDP_USD r)) W in
  let wy := map (fun r => prep_binary (GDP_USD r) (Price r)) W in
  if (w <=? length (filter notna wx))%nat
     && (w <=? length (filter notna wy))%nat
  then corrcoef sqrtQ wx wy else NaN.

Definition ten_quarters : frame :=
  map (fun k => mkrow (8080 + Z.of_nat k)%Z
                      (Fin (inject_Z (Z.of_nat (k * k))))
                      (Fin (inject_Z (Z.of_nat (k + k mod 3)))))
      (seq 0 10).

Definition flat_price : frame :=
  map (fun k => mkrow (8080 + Z.of_nat k)%Z (Fin 1)
                      (Fin (inject_Z (Z.of_nat k))))
      (seq 0 10).

(** A GDP file of five quarters, an ETF file with prices in the same five
    quarters, and an ETF file with a single price. *)
Definition gdp_five : csv :=
  [["Date"; "GDP_USD"];
   ["2020-03-31"; "100"]; ["2020-06-30"; "110"]; ["2020-09-30"; "121"];
   ["2020-12-31"; "130"]; ["2021-03-31"; "140"]]%string.

Definition etf_five : csv :=
  [["Date"; "Price"]; ["-"; "AAA"];
   ["2020-01-15"; "10"]; ["2020-04-15"; "11"]; ["2020-07-15"; "12"];
   ["2020-10-15"; "13"]; ["2021-01-15"; "15"]]%string.

Definition etf_one : csv :=
  [["Date"; "Price"]; ["-"; "AAA"]; ["2020-01-15"; "10"]]%string.

(** A file system holding [gdp_five] and one of the ETF files the script
    of [india_pearson.py] looks for. *)
Definition five_quarter_files (path : string) : option csv :=
  if String.eqb path "processed_gdp_quarterly.csv" then Some gdp_five
  else if String.eqb path "FLIN_daily.csv" then Some etf_five
  else None.

(** Three quarters of prices and of GDP growing at the same rate. *)
Definition etf_three : series :=
  [(8080%Z, Fin 10); (8081%Z, Fin 11); (8082%Z, Fin (121 # 10))].

Definition gdp_three : series :=
  [(8080%Z, Fin 100); (8081%Z, Fin 110); (8082%Z, Fin 121)].

(** Three joined records, the second without a GDP value. *)
Definition frame_with_gap : frame :=
  [mkrow 8080%Z (Fin 10) (Fin 100); mkrow 8081%Z (Fin 11) NaN;
   mkrow 8082%Z (Fin 12) (Fin 121)].

(** A finite cell other than zero. *)
Definition nonzero (v : fval) : bool :=
  match v with Fin q => negb (Qzerob q) | _ => false end.

(** [pct_change] past the first cell: each cell over the one before it,
    minus one. *)
Fixpoint pct_steps (prev : fval) (xs : list fval) : list fval :=
  match xs with
  | [] => []
  | x :: xs' => fsub (fdiv x prev) (Fin 1) :: pct_steps x xs'
  end.

(** A joined record with its two value columns exchanged. *)
Definition swap_columns (r : row) : row :=
  mkrow (Date r) (GDP_USD r) (Price r).

(** Two observations, in the first and the third quarter of 2020. *)
Definition gap_observations : list (date * Q) :=
  [(mkdate 2020 1 15, 1); (mkdate 2020 7 15, 3)].

(** * Properties *)

(** ** Lists *)

Lemma nth_error_map_seq {A : Type} (f : nat -> A) (n i : nat) :
  (i < n)%nat -> nth_error (map f (seq 0 n)) i = Some (f i).
Proof.
  intros Hi. rewrite nth_error_map, nth_error_seq.
  destruct (Nat.ltb_spec i n); [reflexivity | lia].
Qed.

Lemma slice_map {A B : Type} (f : A -> B) (a b : nat) (l : list A) :
  slice a b (map f l) = map f (slice a b l).
Proof. unfold slice. now rewrite skipn_map, firstn_map. Qed.

Lemma window_map {A B : Type} (f : A -> B) (w i : nat) (l : list A) :
  window w i (map f l) = map f (window w i l).
Proof. apply slice_map. Qed.

Lemma window_length {A : Type} (w i : nat) (l : list A) :
  (i < length l)%nat -> length (window w i l) = Nat.min w (i + 1).
Proof.
  intros Hi. unfold window, slice, window_start.
  rewrite length_firstn, length_skipn. lia.
Qed.

Lemma In_firstn {A : Type} (n : nat) (l : list A) (x : A) :
  In x (firstn n l) -> In x l.
Proof.
  revert l. induction n as [|n IH]; intros [|y l]; simpl; intuition.
Qed.

Lemma In_skipn {A : Type} (n : nat) (l : list A) (x : A) :
  In x (skipn n l) -> In x l.
Proof.
  revert l. induction n as [|n IH]; intros [|y l]; simpl; intuition.
Qed.

Lemma window_In {A : Type} (w i : nat) (l : list A) (x : A) :
  In x (window w i l) -> In x l.
Proof.
  unfold window, slice. intros H.
  apply In_firstn in H. now apply In_skipn in H.
Qed.

Lemma combine_map_same {A B C : Type} (f : A -> B) (g : A -> C) (l : list A) :
  combine (map f l) (map g l) = map (fun x => (f x, g x)) l.
Proof. induction l; simpl; congruence. Qed.

Lemma map_fst_combine {A B : Type} (a : list A) (b : list B) :
  length a = length b -> map fst (combine a b) = a.
Proof.
  revert b. induction a as [|x a IH]; intros [|y b] H; simpl in *;
    try discriminate; auto. f_equal. apply IH. lia.
Qed.

Lemma map_snd_combine {A B : Type} (a : list A) (b : list B) :
  length a = length b -> map snd (combine a b) = b.
Proof.
  revert b. induction a as [|x a IH]; intros [|y b] H; simpl in *;
    try discriminate; auto. f_equal. apply IH. lia.
Qed.

Lemma filter_all {A : Type} (p : A -> bool) (l : list A) :
  (forall x, In x l -> p x = true) -> filter p l = l.
Proof.
  intros H. apply forallb_filter_id. now apply forallb_forall.
Qed.

Lemma filter_short {A : Type} (p : A -> bool) (l : list A) :
  (length (filter p l) <= length l)%nat.
Proof. induction l as [|x l IH]; simpl; [|destruct (p x); simpl]; lia. Qed.

(** ** Finite cells and the coefficient *)

Lemma all_fin_None (vs : list fval) :
  all_finite vs = false -> all_fin vs = None.
Proof.
  induction vs as [|v vs IH]; simpl; [discriminate|].
  destruct v; simpl; auto.
  intros H. rewrite (IH H). reflexivity.
Qed.

Lemma all_fin_Some (vs : list fval) :
  all_finite vs = true -> exists qs, all_fin vs = Some qs /\ vs = map Fin qs.
Proof.
  induction vs as [|v vs IH]; simpl.
  - exists []. auto.
  - destruct v; simpl; try discriminate.
    intros H. destruct (IH H) as (qs & E & ->).
    exists (q :: qs). rewrite E. auto.
Qed.

Lemma all_fin_length (vs : list fval) (qs : list Q) :
  all_fin vs = Some qs -> length qs = length vs.
Proof.
  revert qs. induction vs as [|v vs IH]; simpl; intros qs H.
  - now inversion H.
  - destruct v; simpl in H; try discriminate.
    destruct (all_fin vs) eqn:E; try discriminate.
    inversion H. simpl. f_equal. now apply IH.
Qed.

Section Coefficient.

Variable sqrtQ : Q -> Q.

Lemma corrcoef_not_finite_l (a b : list fval) :
  all_finite a = false -> corrcoef sqrtQ a b = NaN.
Proof.
  intros H. unfold corrcoef. now rewrite (all_fin_None _ H).
Qed.

Lemma corrcoef_not_finite_r (a b : list fval) :
  all_finite b = false -> corrcoef sqrtQ a b = NaN.
Proof.
  intros H. unfold corrcoef. rewrite (all_fin_None _ H).
  now destruct (all_fin a).
Qed.

Lemma corrcoef_short (a b : list fval) :
  (length a < 2)%nat -> corrcoef sqrtQ a b = NaN.
Proof.
  intros H. unfold corrcoef.
  destruct (all_fin a) as [xs|] eqn:E; [|reflexivity].
  destruct (all_fin b); [|reflexivity].
  apply all_fin_length in E.
  destruct (Nat.leb_spec (length xs) 1); [reflexivity | lia].
Qed.

(** *** Rolling Pearson *)

Lemma rolling_pearson_length (w : nat) (m : frame) :
  length (rolling_pearson sqrtQ w m) = length m.
Proof.
  unfold rolling_pearson, rolling_corr, col_Price, col_GDP_USD.
  rewrite length_map, length_seq, length_map, length_combine, !length_map.
  apply Nat.min_id.
Qed.

Lemma rolling_pearson_nth (w i : nat) (m : frame) :
  (i < length m)%nat ->
  nth_error (rolling_pearson sqrtQ w m) i = Some (rolling_pearson_at sqrtQ w i m).
Proof.
  intros Hi. unfold rolling_pearson, rolling_corr, col_Price, col_GDP_USD.
  rewrite combine_map_same, !map_map. cbn [fst snd].
  rewrite length_map, nth_error_map_seq by assumption.
  unfold rolling_pearson_at, records. now rewrite !window_map.
Qed.

Lemma rolling_pearson_early (w i : nat) (m : frame) :
  (i < length m)%nat -> (i + 1 < w)%nat ->
  nth_error (rolling_pearson sqrtQ w m) i = Some NaN.
Proof.
  intros Hi Hw. rewrite rolling_pearson_nth by assumption.
  unfold rolling_pearson_at. f_equal.
  set (wx := map _ (records w i m)).
  assert (Hlen : (length (filter notna wx) < w)%nat).
  { pose proof (filter_short notna wx) as Hs.
    unfold wx in Hs at 2. rewrite length_map in Hs.
    unfold records in Hs. rewrite window_length in Hs by assumption. lia. }
  destruct (Nat.leb_spec w (length (filter notna wx))); [lia|reflexivity].
Qed.

Lemma prep_binary_finite (W : frame) :
  forallb (fun r => is_fin (Price r) && is_fin (GDP_USD r)) W = true ->
  map (fun r => prep_binary (Price r) (GDP_USD r)) W = map Price W
  /\ map (fun r => prep_binary (GDP_USD r) (Price r)) W = map GDP_USD W.
Proof.
  induction W as [|r W IH]; simpl; [auto|].
  intros H. apply andb_prop in H as [Hr HW].
  apply andb_prop in Hr as [Hp Hg].
  destruct (IH HW) as [-> ->]. unfold prep_binary. now rewrite Hp, Hg.
Qed.

Lemma prep_binary_not_finite (W : frame) :
  forallb (fun r => is_fin (Price r) && is_fin (GDP_USD r)) W = false ->
  (all_finite (map (fun r => prep_binary (Price r) (GDP_USD r)) W) = false
   \/ all_finite (map (fun r => prep_binary (GDP_USD r) (Price r)) W) = false)
  /\ (all_finite (map Price W) = false
      \/ all_finite (map GDP_USD W) = false).
Proof.
  unfold all_finite.
  induction W as [|r W IH]; simpl; [discriminate|].
  intros H. apply andb_false_iff in H as [H|H].
  - apply andb_false_iff in H as [H|H]; rewrite H.
    + split; [right|left]; simpl; auto.
      unfold prep_binary. rewrite H. reflexivity.
    + split; [left|right]; simpl; auto using andb_false_r.
      unfold prep_binary. rewrite H. reflexivity.
  - destruct (IH H) as [[A|A] [B|B]]; rewrite A, B;
      auto using andb_false_r.
Qed.

(** Over a full window the rolling value is the coefficient of the
    window's two columns. *)
Lemma rolling_pearson_window (w i : nat) (m : frame) :
  (i < length m)%nat -> (w <= i + 1)%nat ->
  rolling_pearson_at sqrtQ w i m
  = corrcoef sqrtQ (map Price (records w i m)) (map GDP_USD (records w i m)).
Proof.
  intros Hi Hw. unfold rolling_pearson_at.
  set (W := records w i m).
  assert (HlenW : length W = w).
  { unfold W, records. rewrite window_length by assumption. lia. }
  destruct (forallb (fun r => is_fin (Price r) && is_fin (GDP_USD r)) W)
    eqn:Hfin.
  - destruct (prep_binary_finite W Hfin) as [-> ->].
    assert (Hall : forall (f : row -> fval),
               (forall r, In r W -> is_fin (f r) = true) ->
               filter notna (map f W) = map f W).
    { intros f Hf. apply filter_all. intros x Hx.
      apply in_map_iff in Hx as (r & <- & Hr).
      specialize (Hf r Hr). now destruct (f r). }
    rewrite forallb_forall in Hfin.
    rewrite !Hall, !length_map, HlenW, Nat.leb_refl; [reflexivity| |].
    + intros r Hr. now destruct (andb_prop _ _ (Hfin r Hr)).
    + intros r Hr. now destruct (andb_prop _ _ (Hfin r Hr)).
  - destruct (prep_binary_not_finite W Hfin) as [HL HR].
    assert (E1 : corrcoef sqrtQ (map Price W) (map GDP_USD W) = NaN)
      by (destruct HR; auto using corrcoef_not_finite_l,
                                  corrcoef_not_finite_r).
    rewrite E1.
    match goal with |- (if ?c then _ else _) = _ => destruct c end;
      [|reflexivity].
    destruct HL; auto using corrcoef_not_finite_l, corrcoef_not_finite_r.
Qed.


(** *** [Series.corr] on the columns of a frame *)

Lemma list_Z_eqb_refl (l : list Z) : list_Z_eqb l l = true.
Proof. unfold list_Z_eqb. destruct (list_eq_dec Z.eq_dec l l); congruence. Qed.

Lemma filter_map_comm {A B : Type} (p : B -> bool) (f : A -> B) (l : list A) :
  filter p (map f l) = map f (filter (fun x => p (f x)) l).
Proof.
  induction l as [|x l IH]; simpl; [reflexivity|].
  destruct (p (f x)); simpl; congruence.
Qed.

Lemma Series_corr_frame (m : frame) :
  Series_corr sqrtQ pearson (col_Price m) (col_GDP_USD m)
  = corrcoef sqrtQ (map Price (dropna m)) (map GDP_USD (dropna m)).
Proof.
  unfold Series_corr, Series_align.
  assert (Hix : index (col_Price m) = index (col_GDP_USD m)).
  { unfold index, col_Price, col_GDP_USD. now rewrite !map_map. }
  rewrite Hix, list_Z_eqb_refl.
  destruct m as [|r m]; [reflexivity|].
  cbn [length col_Price map Nat.eqb].
  unfold nancorr, valid_pairs, values, col_Price, col_GDP_USD.
  change (?a :: map ?f m) with (map f (r :: m)).
  rewrite !map_map. cbn [snd].
  rewrite combine_map_same, filter_map_comm, !map_map. cbn [fst snd].
  fold (dropna (r :: m)).
  destruct (Nat.ltb_spec (length (map (fun x => (Price x, GDP_USD x))
                                      (dropna (r :: m)))) 1) as [H|H];
    [|reflexivity].
  rewrite length_map in H. symmetry. apply corrcoef_short.
  rewrite length_map. lia.
Qed.

Lemma dropna_non_null (m : frame) : non_null m = true -> dropna m = m.
Proof. intros H. now apply forallb_filter_id. Qed.

Lemma non_null_records (w i : nat) (m : frame) :
  non_null m = true -> non_null (records w i m) = true.
Proof.
  unfold non_null. rewrite !forallb_forall. intros H r Hr.
  apply H. eapply window_In, Hr.
Qed.

Lemma Series_corr_same_index (a b : series) :
  index a = index b ->
  forallb notna (values a) = true -> forallb notna (values b) = true ->
  Series_corr sqrtQ pearson a b = corrcoef sqrtQ (values a) (values b).
Proof.
  intros Hix Ha Hb. unfold Series_corr, Series_align.
  rewrite Hix, list_Z_eqb_refl.
  assert (Hlen : length (values a) = length (values b)).
  { unfold values. rewrite !length_map.
    apply (f_equal (@length _)) in Hix. unfold index in Hix.
    now rewrite !length_map in Hix. }
  destruct (Nat.eqb_spec (length a) 0) as [E|E].
  - symmetry. apply corrcoef_short. unfold values. rewrite length_map. lia.
  - unfold nancorr, valid_pairs.
    rewrite filter_all.
    + rewrite map_fst_combine, map_snd_combine by assumption.
      destruct (Nat.ltb_spec (length (combine (values a) (values b))) 1)
        as [H|H]; [|reflexivity].
      rewrite length_combine in H. symmetry. apply corrcoef_short. lia.
    + intros [x y] Hxy. rewrite forallb_forall in Ha, Hb. cbn [fst snd].
      rewrite (Ha x), (Hb y); eauto using in_combine_l, in_combine_r.
Qed.

End Coefficient.

(** ** A zero variance is a constant column *)

Lemma Qsum_map_zero {A : Type} (f : A -> Q) (l : list A) :
  (forall x, In x l -> f x == 0) -> Qsum (map f l) == 0.
Proof.
  induction l as [|x l IH]; intros H; [reflexivity|].
  change (Qsum (map f (x :: l))) with (f x + Qsum (map f l)).
  assert (E1 : f x == 0) by (apply H; left; reflexivity).
  assert (E2 : Qsum (map f l) == 0) by (apply IH; intros; apply H; right; assumption).
  rewrite E1, E2. reflexivity.
Qed.

Lemma Qsum_map_nonneg {A : Type} (f : A -> Q) (l : list A) :
  (forall x, In x l -> 0 <= f x) -> 0 <= Qsum (map f l).
Proof.
  induction l as [|x l IH]; intros H; [simpl; lra|].
  change (Qsum (map f (x :: l))) with (f x + Qsum (map f l)).
  pose proof (H x (or_introl eq_refl)) as Hx.
  assert (0 <= Qsum (map f l)) by (apply IH; simpl in *; auto). lra.
Qed.

Lemma Qsum_map_zero_inv {A : Type} (f : A -> Q) (l : list A) :
  (forall x, In x l -> 0 <= f x) -> Qsum (map f l) == 0 ->
  forall x, In x l -> f x == 0.
Proof.
  induction l as [|y l IH]; intros Hpos Hsum x Hx; [destruct Hx|].
  change (Qsum (map f (y :: l))) with (f y + Qsum (map f l)) in Hsum.
  assert (Hy : 0 <= f y) by (apply Hpos; left; reflexivity).
  assert (Hl : 0 <= Qsum (map f l))
    by (apply Qsum_map_nonneg; intros; apply Hpos; right; assumption).
  destruct Hx as [->|Hx]; [lra|].
  apply IH; [intros; apply Hpos; right; assumption | lra | assumption].
Qed.

Lemma Qsq_nonneg (q : Q) : 0 <= q * q.
Proof.
  destruct (Qlt_le_dec q 0).
  - setoid_replace (q * q) with ((- q) * (- q)) by ring.
    apply Qmult_le_0_compat; lra.
  - apply Qmult_le_0_compat; lra.
Qed.

Lemma Qlen_cons {A : Type} (x : A) (l : list A) : Qlen (x :: l) == Qlen l + 1.
Proof.
  unfold Qlen. cbn [length]. rewrite Nat2Z.inj_succ, <- Z.add_1_r.
  now rewrite inject_Z_plus.
Qed.

Lemma Qlen_nonneg {A : Type} (l : list A) : 0 <= Qlen l.
Proof.
  unfold Qlen. change 0 with (inject_Z 0). rewrite <- Zle_Qle. lia.
Qed.

Lemma Qsum_constant (c : Q) (l : list Q) :
  (forall x, In x l -> x == c) -> Qsum l == c * Qlen l.
Proof.
  induction l as [|x l IH]; intros H.
  - unfold Qlen. simpl. ring.
  - rewrite Qlen_cons. change (Qsum (x :: l)) with (x + Qsum l).
    assert (E1 : x == c) by (apply H; left; reflexivity).
    assert (E2 : Qsum l == c * Qlen l)
      by (apply IH; intros; apply H; right; assumption).
    rewrite E1, E2. ring.
Qed.

Lemma combine_same {A : Type} (l : list A) :
  combine l l = map (fun x => (x, x)) l.
Proof. induction l; simpl; congruence. Qed.

Lemma Qcov_self (xs : list Q) :
  Qcov xs xs
  = Qsum (map (fun x => (x - Qmean xs) * (x - Qmean xs)) xs) / (Qlen xs - 1).
Proof. unfold Qcov. now rewrite combine_same, map_map. Qed.

Lemma constantQ_spec (x : Q) (r : list Q) :
  constantQ (x :: r) = true <-> forall y, In y (x :: r) -> y == x.
Proof.
  simpl. rewrite forallb_forall. split.
  - intros H y [<-|Hy]; [reflexivity|].
    symmetry. apply Qeq_bool_iff. auto.
  - intros H y Hy. apply Qeq_bool_iff. symmetry. auto.
Qed.

Lemma variance_zero (xs : list Q) :
  Qzerob (Qcov xs xs) = constantQ xs.
Proof.
  destruct xs as [|x r]; [reflexivity|].
  rewrite Qcov_self. set (l := x :: r). set (m := Qmean l).
  set (A := Qsum (map (fun y => (y - m) * (y - m)) l)).
  assert (HA : 0 <= A) by (apply Qsum_map_nonneg; intros; apply Qsq_nonneg).
  destruct (constantQ l) eqn:C.
  - apply Qeq_bool_iff.
    pose proof (proj1 (constantQ_spec x r) C) as C'. fold l in C'.
    clear C. rename C' into C.
    assert (Hm : m == x).
    { unfold m, Qmean. rewrite (Qsum_constant x l C).
      pose proof (Qlen_nonneg r). unfold l. field. rewrite Qlen_cons. lra. }
    assert (HA0 : A == 0).
    { apply Qsum_map_zero. intros y Hy. rewrite (C y Hy), Hm. ring. }
    rewrite HA0. unfold Qdiv. ring.
  - destruct (Qzerob (A / (Qlen l - 1))) eqn:Z; [|reflexivity].
    exfalso. apply Qeq_bool_iff in Z.
    assert (Hne : constantQ l <> true) by congruence. apply Hne.
    apply constantQ_spec.
    destruct r as [|x' r']; [simpl; intros y [<-|[]]; reflexivity|].
    assert (Hd : 0 < Qlen l - 1).
    { unfold l. rewrite !Qlen_cons. pose proof (Qlen_nonneg r'). lra. }
    assert (HA0 : A == 0).
    { assert (E : A == (A / (Qlen l - 1)) * (Qlen l - 1)) by (field; lra).
      rewrite E, Z. ring. }
    assert (Hall : forall y, In y l -> y == m).
    { intros y Hy.
      pose proof (Qsum_map_zero_inv (fun y => (y - m) * (y - m)) l
                    (fun y _ => Qsq_nonneg (y - m)) HA0 y Hy) as Hsq.
      cbv beta in Hsq. apply Qmult_integral in Hsq. lra. }
    intros y Hy. rewrite (Hall y Hy), (Hall x); [reflexivity|left; reflexivity].
Qed.

Lemma constant_map_Fin (xs : list Q) : constant (map Fin xs) = constantQ xs.
Proof.
  destruct xs as [|x r]; [reflexivity|]. simpl.
  induction r as [|y r IH]; simpl; [reflexivity|]. now rewrite IH.
Qed.

Lemma all_fin_map_Fin (xs : list Q) : all_fin (map Fin xs) = Some xs.
Proof. induction xs as [|x xs IH]; simpl; [|rewrite IH]; reflexivity. Qed.

(** The coefficient is a number exactly when both columns are finite and
    neither is constant. *)
Lemma corrcoef_is_fin (sqrtQ : Q -> Q) (a b : list fval) :
  is_fin (corrcoef sqrtQ a b)
  = all_finite a && all_finite b && negb (constant a) && negb (constant b).
Proof.
  destruct (all_finite a) eqn:Ha.
  2:{ now rewrite corrcoef_not_finite_l. }
  destruct (all_finite b) eqn:Hb.
  2:{ now rewrite corrcoef_not_finite_r. }
  destruct (all_fin_Some a Ha) as (xs & _ & ->).
  destruct (all_fin_Some b Hb) as (ys & _ & ->).
  unfold corrcoef. rewrite !all_fin_map_Fin, !constant_map_Fin.
  rewrite !variance_zero. simpl.
  destruct (Nat.leb_spec (length xs) 1) as [H|H].
  - destruct xs as [|x [|x' xs]]; simpl in *; try reflexivity; lia.
  - destruct (constantQ xs), (constantQ ys); reflexivity.
Qed.

(** ** Rolling Spearman *)

Lemma rank_length (vs : list fval) : length (rank vs) = length vs.
Proof. unfold rank. apply length_map. Qed.

Lemma rank_notna (vs : list fval) :
  forallb notna vs = true -> forallb notna (rank vs) = true.
Proof.
  unfold rank. rewrite !forallb_forall. intros H x Hx.
  apply in_map_iff in Hx as (v & <- & Hv). now rewrite (H v Hv).
Qed.

Lemma non_null_columns (W : frame) :
  non_null W = true ->
  forallb notna (map Price W) = true /\ forallb notna (map GDP_USD W) = true.
Proof.
  unfold non_null. rewrite !forallb_forall. intros H.
  split; intros x Hx; apply in_map_iff in Hx as (r & <- & Hr);
    now destruct (andb_prop _ _ (H r Hr)).
Qed.

Lemma filter_Date_none (d : label) (m : frame) :
  ~ In d (map Date m) -> filter (fun r => (Date r =? d)%Z) m = [].
Proof.
  induction m as [|x m IH]; simpl; [reflexivity|]. intros H.
  destruct (Z.eqb_spec (Date x) d); [tauto|]. apply IH. tauto.
Qed.

Lemma filter_Date_unique (m : frame) (r : row) :
  NoDup (map Date m) -> In r m ->
  filter (fun r' => (Date r' =? Date r)%Z) m = [r].
Proof.
  induction m as [|x m IH]; simpl; [tauto|].
  intros Hnd Hin. inversion Hnd as [|? ? Hx Hm]; subst.
  destruct Hin as [->|Hin].
  - rewrite Z.eqb_refl. f_equal. now apply filter_Date_none.
  - destruct (Z.eqb_spec (Date x) (Date r)) as [E|E].
    + exfalso. apply Hx. rewrite E. now apply in_map.
    + now apply IH.
Qed.

Section Spearman.

Variable sqrtQ : Q -> Q.

(** With unique labels, looking the window's labels up in the frame
    returns the window's own GDP cells. *)
Lemma loc_GDP_USD_records (m W : frame) :
  NoDup (map Date m) -> (forall r, In r W -> In r m) ->
  loc_GDP_USD m (map Date W) = col_GDP_USD W.
Proof.
  intros Hnd. induction W as [|r W IH]; intros Hin; [reflexivity|].
  cbn [map]. unfold loc_GDP_USD in *. cbn [flat_map].
  rewrite filter_Date_unique by (auto || apply Hin; left; reflexivity).
  rewrite IH by (intros; apply Hin; right; assumption).
  reflexivity.
Qed.

Lemma spearman_corr_records (m W : frame) :
  NoDup (map Date m) -> (forall r, In r W -> In r m) ->
  non_null W = true ->
  spearman_corr sqrtQ m (col_Price W)
  = corrcoef sqrtQ (rank (map Price W)) (rank (map GDP_USD W)).
Proof.
  intros Hnd Hin Hnn. unfold spearman_corr.
  assert (Hix : index (col_Price W) = map Date W)
    by (unfold index, col_Price; now rewrite map_map).
  rewrite Hix, loc_GDP_USD_records by assumption.
  unfold Series_rank, with_index.
  assert (HvP : values (col_Price W) = map Price W)
    by (unfold values, col_Price; now rewrite map_map).
  assert (HvG : values (col_GDP_USD W) = map GDP_USD W)
    by (unfold values, col_GDP_USD; now rewrite map_map).
  assert (HiG : index (col_GDP_USD W) = map Date W)
    by (unfold index, col_GDP_USD; now rewrite map_map).
  rewrite Hix, HiG, HvP, HvG.
  destruct (non_null_columns W Hnn) as [HP HG].
  rewrite Series_corr_same_index; unfold index, values.
  - rewrite !map_snd_combine; [reflexivity| |];
      now rewrite rank_length, !length_map.
  - rewrite !map_fst_combine; [reflexivity| |];
      now rewrite rank_length, !length_map.
  - rewrite map_snd_combine by (now rewrite rank_length, !length_map).
    now apply rank_notna.
  - rewrite map_snd_combine by (now rewrite rank_length, !length_map).
    now apply rank_notna.
Qed.

Lemma rolling_spearman_length (w : nat) (m : frame) :
  length (rolling_spearman sqrtQ w m) = length m.
Proof.
  unfold rolling_spearman, rolling_apply, col_Price.
  now rewrite length_map, length_seq, length_map.
Qed.

Lemma rolling_spearman_nth (w i : nat) (m : frame) :
  (i < length m)%nat ->
  nth_error (rolling_spearman sqrtQ w m) i
  = Some (let W := records w i m in
          if (w <=? length (filter notna (map Price W)))%nat
          then spearman_corr sqrtQ m (col_Price W) else NaN).
Proof.
  intros Hi. unfold rolling_spearman, rolling_apply.
  assert (Hlen : length (col_Price m) = length m)
    by (unfold col_Price; apply length_map).
  rewrite Hlen, nth_error_map_seq by assumption.
  unfold records, col_Price, values.
  now rewrite window_map, map_map.
Qed.

End Spearman.

(** ** The rolling statistics (lines 78-86 of [india_pearson.py],
       lines 69-70 of [streamlit_app.py]) *)

(** C1.  Over a frame with unique quarter labels and non-null cells,
    [rolling_spearman] has one entry per record and is null exactly where
    [rolling_pearson] is null for lack of history (positions [i < w-1]);
    at every later position it is the Pearson coefficient of the average
    ranks of the two columns, the ranks being taken inside the [w] records
    that end at the position. *)
Theorem rolling_spearman_ranks_each_window
        (sqrtQ : Q -> Q) (w : nat) (m : frame) :
  non_null m = true -> NoDup (map Date m) ->
  length (rolling_spearman sqrtQ w m) = length m
  /\ length (rolling_pearson sqrtQ w m) = length m
  /\ (forall i, (i < length m)%nat -> (i < w - 1)%nat ->
        nth_error (rolling_spearman sqrtQ w m) i = Some NaN
        /\ nth_error (rolling_pearson sqrtQ w m) i = Some NaN)
  /\ (forall i, (i < length m)%nat -> (w - 1 <= i)%nat ->
        nth_error (rolling_spearman sqrtQ w m) i
        = Some (corrcoef sqrtQ
                  (rank (map Price (slice (i + 1 - w) (i + 1) m)))
                  (rank (map GDP_USD (slice (i + 1 - w) (i + 1) m))))).
Proof.
  intros Hnn Hnd.
  split; [apply rolling_spearman_length|].
  split; [apply rolling_pearson_length|].
  split.
  - intros i Hi Hw. split.
    + rewrite rolling_spearman_nth by assumption. f_equal. cbv zeta.
      pose proof (filter_short notna (map Price (records w i m))) as Hs.
      rewrite length_map in Hs. unfold records in Hs at 2.
      rewrite window_length in Hs by assumption.
      destruct (Nat.leb_spec w (length (filter notna
                                  (map Price (records w i m)))));
        [lia|reflexivity].
    + apply rolling_pearson_early; [assumption|lia].
  - intros i Hi Hw.
    rewrite rolling_spearman_nth by assumption. f_equal. cbv zeta.
    change (slice (i + 1 - w) (i + 1) m) with (records w i m).
    pose proof (non_null_records w i m Hnn) as HnnW.
    destruct (non_null_columns _ HnnW) as [HP _].
    rewrite forallb_filter_id, length_map by assumption.
    unfold records at 1. rewrite window_length by assumption.
    replace (Nat.min w (i + 1)) with w by lia. rewrite Nat.leb_refl.
    apply spearman_corr_records; auto.
    intros r Hr. eapply window_In, Hr.
Qed.

Lemma rolling_spearman_ranks_each_window_witness :
  non_null ten_quarters = true /\ NoDup (map Date ten_quarters)
  /\ nth_error (rolling_spearman sqrt6 8 ten_quarters) 8
     = Some (corrcoef sqrt6
               (rank (map Price (slice 1 9 ten_quarters)))
               (rank (map GDP_USD (slice 1 9 ten_quarters)))).
Proof.
  assert (Hnd : NoDup (map Date ten_quarters)).
  { apply (NoDup_map_inv (fun q => Z.to_nat (q - 8080))).
    rewrite map_map. apply (seq_NoDup 10 0). }
  split; [reflexivity|]. split; [exact Hnd|].
  refine (proj2 (proj2 (proj2
    (rolling_spearman_ranks_each_window sqrt6 8 ten_quarters
       eq_refl Hnd))) 8%nat _ _); simpl; lia.
Defined.

(** C2.  Over a frame of non-null records, the rolling Pearson value at a
    position [i >= w-1] is [Series.corr] of the two columns restricted to
    the records [i-w+1 .. i]. *)
Theorem rolling_pearson_is_pearson_of_window
        (sqrtQ : Q -> Q) (w i : nat) (m : frame) :
  non_null m = true -> (w - 1 <= i)%nat -> (i < length m)%nat ->
  nth_error (rolling_pearson sqrtQ w m) i
  = Some (Series_corr sqrtQ pearson
            (col_Price (slice (i + 1 - w) (i + 1) m))
            (col_GDP_USD (slice (i + 1 - w) (i + 1) m))).
Proof.
  intros Hnn Hw Hi.
  rewrite rolling_pearson_nth by assumption. f_equal.
  rewrite rolling_pearson_window by (assumption || lia).
  change (slice (i + 1 - w) (i + 1) m) with (records w i m).
  rewrite Series_corr_frame.
  now rewrite dropna_non_null by (now apply non_null_records).
Qed.

Lemma rolling_pearson_is_pearson_of_window_witness :
  non_null ten_quarters = true
  /\ nth_error (rolling_pearson sqrt6 8 ten_quarters) 9
     = Some (Series_corr sqrt6 pearson
               (col_Price (slice 2 10 ten_quarters))
               (col_GDP_USD (slice 2 10 ten_quarters))).
Proof.
  split; [reflexivity|].
  apply (rolling_pearson_is_pearson_of_window sqrt6 8 9 ten_quarters);
    [reflexivity | simpl; lia | simpl; lia].
Defined.

(** C3, as stated, fails where a column does not vary: with ten records
    of constant price and a window of 8 the positions 7-9 are null like
    the positions 0-6. *)
Lemma rolling_pearson_constant_price_is_null :
  length flat_price = 10%nat /\ non_null flat_price = true
  /\ rolling_pearson sqrt6 8 flat_price = repeat NaN 10.
Proof. repeat split. Qed.

(** C3 (amended).  [rolling_pearson] has one entry per record; the
    entries of positions [i < w-1] are null; the entry of a position
    [i >= w-1] is the coefficient of the records [i-w+1 .. i], which is a
    number exactly when both columns are finite there and neither is
    constant, and null otherwise. *)
Theorem rolling_pearson_shape (sqrtQ : Q -> Q) (w : nat) (m : frame) :
  length (rolling_pearson sqrtQ w m) = length m
  /\ (forall i, (i < length m)%nat -> (i < w - 1)%nat ->
        nth_error (rolling_pearson sqrtQ w m) i = Some NaN)
  /\ (forall i, (i < length m)%nat -> (w - 1 <= i)%nat ->
        let P := map Price (slice (i + 1 - w) (i + 1) m) in
        let G := map GDP_USD (slice (i + 1 - w) (i + 1) m) in
        nth_error (rolling_pearson sqrtQ w m) i = Some (corrcoef sqrtQ P G)
        /\ is_fin (corrcoef sqrtQ P G)
           = all_finite P && all_finite G
             && negb (constant P) && negb (constant G)).
Proof.
  split; [apply rolling_pearson_length|]. split.
  - intros i Hi Hw. apply rolling_pearson_early; [assumption|lia].
  - intros i Hi Hw P G. split; [|apply corrcoef_is_fin].
    rewrite rolling_pearson_nth by assumption. f_equal.
    apply rolling_pearson_window; [assumption|lia].
Qed.

(** The window of both scripts over ten records of varying price and
    GDP: seven nulls, then three coefficients. *)
Example window_of_8_over_10_records :
  map is_fin (rolling_pearson sqrt6 window8 ten_quarters)
  = [false; false; false; false; false; false; false; true; true; true]
  /\ map is_fin (rolling_spearman sqrt6 window8 ten_quarters)
     = [false; false; false; false; false; false; false; true; true; true].
Proof. split; vm_compute; reflexivity. Qed.

(** ** Quarterly resampling (line 41 of [india_pearson.py], line 19 of
       [streamlit_app.py]) *)

Lemma fold_min_In (q : Z) (qs : list Z) : In (fold_right Z.min q qs) (q :: qs).
Proof.
  induction qs as [|x qs IH]; simpl; [auto|].
  destruct (Z.min_spec x (fold_right Z.min q qs)) as [[_ ->]|[_ ->]];
    simpl in *; tauto.
Qed.

Lemma fold_min_le (q : Z) (qs : list Z) (x : Z) :
  In x (q :: qs) -> (fold_right Z.min q qs <= x)%Z.
Proof.
  induction qs as [|y qs IH]; simpl; intros H.
  - destruct H as [->|[]]. lia.
  - destruct H as [H|[H|H]].
    + specialize (IH (or_introl H)). lia.
    + lia.
    + specialize (IH (or_intror H)). lia.
Qed.

Lemma fold_max_In (q : Z) (qs : list Z) : In (fold_right Z.max q qs) (q :: qs).
Proof.
  induction qs as [|x qs IH]; simpl; [auto|].
  destruct (Z.max_spec x (fold_right Z.max q qs)) as [[_ ->]|[_ ->]];
    simpl in *; tauto.
Qed.

Lemma fold_max_ge (q : Z) (qs : list Z) (x : Z) :
  In x (q :: qs) -> (x <= fold_right Z.max q qs)%Z.
Proof.
  induction qs as [|y qs IH]; simpl; intros H.
  - destruct H as [->|[]]. lia.
  - destruct H as [H|[H|H]].
    + specialize (IH (or_introl H)). lia.
    + lia.
    + specialize (IH (or_intror H)). lia.
Qed.

Lemma In_consecutive (lo : Z) (n : nat) (q : Z) :
  In q (map (fun k => (lo + Z.of_nat k)%Z) (seq 0 n))
  <-> (lo <= q < lo + Z.of_nat n)%Z.
Proof.
  rewrite in_map_iff. split.
  - intros (k & <- & Hk). apply in_seq in Hk. lia.
  - intros H. exists (Z.to_nat (q - lo)). split; [lia|].
    apply in_seq. lia.
Qed.

Lemma NoDup_consecutive (lo : Z) (n : nat) :
  NoDup (map (fun k => (lo + Z.of_nat k)%Z) (seq 0 n)).
Proof.
  apply (NoDup_map_inv (fun q => Z.to_nat (q - lo))).
  rewrite map_map.
  rewrite (map_ext _ (fun k => k)), map_id by (intros; lia).
  apply seq_NoDup.
Qed.

Lemma resample_index (o : date * Q) (obs : list (date * Q)) :
  let qs := map (fun o => quarter_of (fst o)) obs in
  let lo := fold_right Z.min (quarter_of (fst o)) qs in
  let hi := fold_right Z.max (quarter_of (fst o)) qs in
  index (resample_Q_mean (o :: obs))
  = map (fun k => (lo + Z.of_nat k)%Z) (seq 0 (Z.to_nat (hi - lo + 1))).
Proof.
  cbv zeta. unfold resample_Q_mean, index. cbn [map]. now rewrite map_map.
Qed.

Lemma resample_index_NoDup (obs : list (date * Q)) :
  NoDup (index (resample_Q_mean obs)).
Proof.
  destruct obs as [|o obs]; [constructor|].
  rewrite resample_index. apply NoDup_consecutive.
Qed.

Lemma notna_mean (vs : list Q) : notna (mean vs) = true <-> vs <> [].
Proof. destruct vs; simpl; split; congruence. Qed.

Lemma quarter_values_nonempty (q : label) (obs : list (date * Q)) :
  quarter_values q obs <> []
  <-> exists o, In o obs /\ quarter_of (fst o) = q.
Proof.
  unfold quarter_values. split.
  - intros H.
    destruct (filter (fun o => (quarter_of (fst o) =? q)%Z) obs)
      as [|o l] eqn:E; [now elim H|].
    assert (Ho : In o (filter (fun o => (quarter_of (fst o) =? q)%Z) obs))
      by (rewrite E; left; reflexivity).
    apply filter_In in Ho as [Ho Hq]. exists o. split; [assumption|].
    now apply Z.eqb_eq.
  - intros (o & Ho & Hq) E.
    assert (Hin : In o (filter (fun o => (quarter_of (fst o) =? q)%Z) obs))
      by (apply filter_In; split; [assumption | now apply Z.eqb_eq]).
    destruct (filter (fun o => (quarter_of (fst o) =? q)%Z) obs);
      [destruct Hin | discriminate].
Qed.

(** C4, as stated, fails on a gap: with observations in the first and the
    third quarter of 2020 the resampled frame has three rows, and the row
    of the second quarter (label 8081) stands for no observation. *)
Lemma resample_emits_a_gap_quarter :
  resample_Q_mean gap_observations
  = [(8080%Z, Fin 1); (8081%Z, NaN); (8082%Z, Fin 3)]
  /\ In 8081%Z (index (resample_Q_mean gap_observations))
  /\ ~ (exists o, In o gap_observations /\ quarter_of (fst o) = 8081%Z).
Proof.
  split; [reflexivity|]. split; [simpl; tauto|].
  intros (o & [<-|[<-|[]]] & H); discriminate.
Qed.

(** C4 (amended).  The empty input gives the empty frame.  Otherwise the
    frame has exactly one row for every calendar quarter from the quarter
    of the earliest observation to the quarter of the latest; the row of a
    quarter holds the mean of the quarter's observations, and it is null
    exactly when no observation falls in the quarter. *)
Theorem resample_emits_every_quarter_in_range (obs : list (date * Q)) :
  resample_Q_mean [] = []
  /\ NoDup (index (resample_Q_mean obs))
  /\ (forall q, In q (index (resample_Q_mean obs)) <->
        exists o1 o2, In o1 obs /\ In o2 obs
          /\ (quarter_of (fst o1) <= q <= quarter_of (fst o2))%Z)
  /\ (forall q v, In (q, v) (resample_Q_mean obs) ->
        v = mean (quarter_values q obs)
        /\ (notna v = true <->
            exists o, In o obs /\ quarter_of (fst o) = q)).
Proof.
  split; [reflexivity|]. split; [apply resample_index_NoDup|]. split.
  - intros q. destruct obs as [|o obs].
    + simpl. split; [tauto|]. now intros (o1 & _ & [] & _).
    + rewrite resample_index. cbv zeta.
      set (qs := map (fun o => quarter_of (fst o)) obs).
      set (q0 := quarter_of (fst o)).
      pose proof (fold_min_In q0 qs) as HloIn.
      pose proof (fold_max_In q0 qs) as HhiIn.
      assert (Hq : forall x, In x (q0 :: qs) <->
                     exists o', In o' (o :: obs) /\ quarter_of (fst o') = x).
      { intros x. change (q0 :: qs)
          with (map (fun o => quarter_of (fst o)) (o :: obs)).
        rewrite in_map_iff. split; intros (o' & A & B); exists o'; auto. }
      rewrite In_consecutive. split.
      * intros H.
        apply Hq in HloIn as (o1 & Ho1 & E1).
        apply Hq in HhiIn as (o2 & Ho2 & E2).
        exists o1, o2. repeat split; try assumption; lia.
      * intros (o1 & o2 & Ho1 & Ho2 & H).
        assert (H1 : In (quarter_of (fst o1)) (q0 :: qs))
          by (apply Hq; eauto).
        assert (H2 : In (quarter_of (fst o2)) (q0 :: qs))
          by (apply Hq; eauto).
        apply fold_min_le in H1. apply fold_max_ge in H2. lia.
  - intros q v H.
    assert (Hv : v = mean (quarter_values q obs)).
    { destruct obs as [|o obs]; [destruct H|].
      unfold resample_Q_mean in H. cbn [map] in H.
      apply in_map_iff in H as (k & E & _). now inversion E. }
    split; [exact Hv|].
    rewrite Hv, notna_mean. apply quarter_values_nonempty.
Qed.

(** ** The inner join (lines 44-45 of [india_pearson.py], line 52 of
       [streamlit_app.py]) *)

Lemma Permutation_filter {A : Type} (p : A -> bool) (l l' : list A) :
  Permutation l l' -> Permutation (filter p l) (filter p l').
Proof.
  induction 1 as [|x l l' _ IH|x y l|l l' l'' _ IH1 _ IH2]; simpl.
  - constructor.
  - destruct (p x); auto.
  - destruct (p x), (p y); auto. constructor.
  - now transitivity (filter p l').
Qed.

Lemma flat_map_nil {A B : Type} (l : list A) :
  flat_map (fun _ => @nil B) l = [].
Proof. induction l; simpl; auto. Qed.

Lemma flat_map_split {A B : Type} (g h : A -> list B) (l : list A) :
  Permutation (flat_map (fun y => g y ++ h y) l)
              (flat_map g l ++ flat_map h l).
Proof.
  induction l as [|y l IH]; simpl; [constructor|].
  rewrite IH, <- !app_assoc. apply Permutation_app_head.
  rewrite !app_assoc. apply Permutation_app_tail, Permutation_app_comm.
Qed.

Lemma flat_map_exchange {A B C : Type} (f : A -> B -> list C)
      (a : list A) (b : list B) :
  Permutation (flat_map (fun x => flat_map (fun y => f x y) b) a)
              (flat_map (fun y => flat_map (fun x => f x y) a) b).
Proof.
  induction a as [|x a IH]; simpl.
  - now rewrite flat_map_nil.
  - rewrite IH. symmetry. apply flat_map_split.
Qed.

Lemma map_filter_flat_map {A B : Type} (g : A -> B) (p : A -> bool)
      (l : list A) :
  map g (filter p l) = flat_map (fun y => if p y then [g y] else []) l.
Proof.
  induction l as [|y l IH]; simpl; [reflexivity|].
  destruct (p y); simpl; congruence.
Qed.

Lemma map_flat_map {A B C : Type} (g : B -> C) (f : A -> list B)
      (l : list A) :
  map g (flat_map f l) = flat_map (fun x => map g (f x)) l.
Proof.
  induction l as [|x l IH]; simpl; [reflexivity|].
  now rewrite map_app, IH.
Qed.

Lemma merge_inner_swap (a b : series) :
  Permutation (merge_inner a b) (map swap_columns (merge_inner b a)).
Proof.
  unfold merge_inner.
  rewrite (flat_map_ext _
             (fun x => flat_map
                (fun y => if (fst y =? fst x)%Z
                          then [mkrow (fst x) (snd x) (snd y)] else []) b))
    by (intros; apply map_filter_flat_map).
  rewrite flat_map_exchange.
  rewrite map_flat_map.
  apply Permutation_refl'. apply flat_map_ext. intros y.
  rewrite map_map, map_filter_flat_map.
  apply flat_map_ext. intros x. unfold label in *.
  rewrite (Z.eqb_sym (fst x) (fst y)).
  destruct (Z.eqb_spec (fst y) (fst x)) as [E|E]; [|reflexivity].
  unfold swap_columns. cbn. now rewrite E.
Qed.

Lemma dropna_swap (m : frame) :
  dropna (map swap_columns m) = map swap_columns (dropna m).
Proof.
  unfold dropna. rewrite filter_map_comm. f_equal.
  apply filter_ext. intros r. apply andb_comm.
Qed.

Lemma matches_at_most_one (k : label) (b : series) :
  NoDup (index b) ->
  (length (filter (fun y => (fst y =? k)%Z) b) <= 1)%nat.
Proof.
  unfold index, series, label in *.
  induction b as [|y b IH]; simpl; intros H; [lia|].
  inversion H as [|? ? Hy Hb]; subst.
  destruct (Z.eqb_spec (fst y) k) as [E|E]; [|auto].
  assert (E0 : filter (fun z => (fst z =? k)%Z) b = []).
  { clear IH Hb H.
    induction b as [|z b IH]; simpl; [reflexivity|].
    destruct (Z.eqb_spec (fst z) k) as [Ez|Ez].
    - exfalso. apply Hy. left. congruence.
    - apply IH. intros Hin. apply Hy. right. assumption. }
  rewrite E0. simpl. lia.
Qed.

Lemma merge_inner_length (a b : series) :
  NoDup (index b) -> (length (merge_inner a b) <= length a)%nat.
Proof.
  intros Hb. unfold merge_inner.
  induction a as [|x a IH]; simpl; [lia|].
  rewrite length_app, length_map.
  pose proof (matches_at_most_one (fst x) b Hb). lia.
Qed.

(** C8.  For two quarterly series (unique quarter labels), joining them
    in either order gives the same records up to order, the two value
    columns exchanged, both for the bare join of [streamlit_app.py] and
    for the join followed by [dropna] of [india_pearson.py]; and the join
    has at most as many records as the shorter series. *)
Theorem align_commutes_and_is_bounded (a b : series) :
  NoDup (index a) -> NoDup (index b) ->
  Permutation (merge_inner a b) (map swap_columns (merge_inner b a))
  /\ Permutation (aligned a b) (map swap_columns (aligned b a))
  /\ (length (merge_inner a b) <= Nat.min (length a) (length b))%nat
  /\ (length (aligned a b) <= Nat.min (length a) (length b))%nat.
Proof.
  intros Ha Hb.
  pose proof (merge_inner_swap a b) as Hswap.
  assert (Hlen : (length (merge_inner a b)
                  <= Nat.min (length a) (length b))%nat).
  { pose proof (merge_inner_length a b Hb).
    pose proof (merge_inner_length b a Ha) as H'.
    pose proof (Permutation_length Hswap) as Heq.
    rewrite length_map in Heq. lia. }
  repeat split; try assumption.
  - unfold aligned. rewrite <- dropna_swap. now apply Permutation_filter.
  - unfold aligned, dropna.
    pose proof (filter_short
                  (fun r => notna (Price r) && notna (GDP_USD r))
                  (merge_inner a b)). lia.
Qed.

Lemma align_commutes_and_is_bounded_witness :
  NoDup (index etf_three) /\ NoDup (index gdp_three)
  /\ Permutation (aligned etf_three gdp_three)
                 (map swap_columns (aligned gdp_three etf_three))
  /\ (length (aligned etf_three gdp_three) <= 3)%nat.
Proof.
  assert (Ha : NoDup (index etf_three)) by apply (NoDup_consecutive 8080 3).
  assert (Hb : NoDup (index gdp_three)) by apply (NoDup_consecutive 8080 3).
  split; [exact Ha|]. split; [exact Hb|].
  pose proof (align_commutes_and_is_bounded etf_three gdp_three Ha Hb)
    as (_ & Hperm & _ & Hlen).
  split; [exact Hperm | exact Hlen].
Defined.

(** The frame [india_pearson.py] correlates keeps the invariants of an
    aligned record sequence: unique quarter labels, no null field. *)
Lemma filter_keeps_keys_unique {R K : Type} (keep : R -> bool)
      (key : R -> K) (m : list R) (Hm : NoDup (map key m)) :
  NoDup (map key (filter keep m)).
Proof.
  revert Hm. induction m as [|r m IH]; simpl; intros H; [constructor|].
  inversion H as [|? ? Hr Hm]; subst.
  destruct (keep r); simpl; [|auto]. constructor; [|auto].
  intros Hin. apply Hr. apply in_map_iff in Hin as (y & E & Hy).
  apply filter_In in Hy as [Hy _]. apply in_map_iff. eauto.
Qed.

Lemma merge_inner_Date_In (a b : series) (d : label) :
  In d (map Date (merge_inner a b)) -> In d (index a).
Proof.
  unfold merge_inner, index. rewrite map_flat_map.
  intros H. apply in_flat_map in H as (x & Hx & H).
  rewrite map_map in H. cbn [Date] in H.
  apply in_map_iff in H as (y & <- & _). now apply in_map.
Qed.

Lemma merge_inner_NoDup (a b : series) :
  NoDup (index a) -> NoDup (index b) -> NoDup (map Date (merge_inner a b)).
Proof.
  intros Ha Hb. induction a as [|x a IH]; [constructor|].
  unfold index in Ha. cbn [map] in Ha.
  inversion Ha as [|? ? Hx Ha']; subst.
  change (merge_inner (x :: a) b)
    with (map (fun y => mkrow (fst x) (snd x) (snd y))
              (filter (fun y => (fst y =? fst x)%Z) b) ++ merge_inner a b).
  rewrite map_app, map_map. cbn [Date].
  pose proof (matches_at_most_one (fst x) b Hb) as Hone.
  destruct (filter (fun y => (fst y =? fst x)%Z) b) as [|y [|y' l]];
    cbn [map List.app length] in *; [now apply IH| |lia].
  constructor; [|now apply IH].
  intros Hin. apply Hx. now apply merge_inner_Date_In in Hin.
Qed.

Lemma aligned_invariants (a b : series) :
  NoDup (index a) -> NoDup (index b) ->
  non_null (aligned a b) = true /\ NoDup (map Date (aligned a b)).
Proof.
  intros Ha Hb. split.
  - unfold non_null, aligned, dropna. apply forallb_forall.
    intros r Hr. now apply filter_In in Hr.
  - unfold aligned, dropna. apply filter_keeps_keys_unique.
    now apply merge_inner_NoDup.
Qed.

Lemma pipeline_frame_invariants (etf gdp : list (date * Q)) :
  let merged := aligned (resample_Q_mean etf) (resample_Q_mean gdp) in
  non_null merged = true /\ NoDup (map Date merged).
Proof. apply aligned_invariants; apply resample_index_NoDup. Qed.

(** ** Cumulative growth and the normalized series (lines 62-63 and 97-98
       of [india_pearson.py]) *)

Lemma pct_change_cons (v : fval) (vs : list fval) :
  pct_change (v :: vs) = NaN :: pct_steps v vs.
Proof.
  unfold pct_change, shift.
  cbn [combine map fst snd].
  replace (fsub (fdiv v NaN) (Fin 1)) with NaN by (now destruct v).
  f_equal. revert v. induction vs as [|x vs IH]; intros v; [reflexivity|].
  cbn [removelast combine map fst snd pct_steps]. f_equal. apply IH.
Qed.

Lemma Qzerob_false (q : Q) : Qzerob q = false -> ~ q == 0.
Proof.
  unfold Qzerob. intros H E. apply Qeq_bool_iff in E. congruence.
Qed.

Lemma growth_telescopes (x0 : Q) (rest : list Q) (a p : Q) :
  ~ x0 == 0 -> ~ p == 0 -> a == p / x0 ->
  forallb nonzero (map Fin rest) = true ->
  cumprod_from (Fin a) (add 1 (pct_steps (Fin p) (map Fin rest)))
  = map (fun x => fdiv x (Fin x0)) (map Fin rest).
Proof.
  intros Hx0. revert a p.
  induction rest as [|x rest IH]; intros a p Hp Ha Hall; [reflexivity|].
  cbn [map forallb nonzero] in Hall. apply andb_prop in Hall as [Hx Hrest].
  apply negb_true_iff in Hx. pose proof (Qzerob_false _ Hx) as Hx'.
  assert (Hp0 : Qzerob p = false).
  { unfold Qzerob. destruct (Qeq_bool p 0) eqn:E; [|reflexivity].
    apply Qeq_bool_iff in E. contradiction. }
  assert (Hx00 : Qzerob x0 = false).
  { unfold Qzerob. destruct (Qeq_bool x0 0) eqn:E; [|reflexivity].
    apply Qeq_bool_iff in E. contradiction. }
  cbn [map pct_steps add cumprod_from fdiv fsub fadd fmul isna notna negb].
  rewrite Hp0, Hx00. cbn [fsub fadd fmul isna notna negb].
  set (g := Qred (Qred (Qred (x / p) - 1) + 1)).
  assert (Hg : g == x / p).
  { unfold g. rewrite !Qred_correct. ring. }
  assert (Hacc : a * g == x / x0).
  { rewrite Hg, Ha. field. split; assumption. }
  rewrite (Qred_complete _ _ Hacc). f_equal.
  apply (IH (Qred (x / x0)) x); try assumption.
  apply Qred_correct.
Qed.

Lemma nonzero_cells (xs : list fval) :
  forallb nonzero xs = true -> exists qs, xs = map Fin qs.
Proof.
  induction xs as [|v xs IH]; simpl; intros H; [now exists []|].
  apply andb_prop in H as [Hv Hxs]. destruct (IH Hxs) as (qs & ->).
  destruct v; try discriminate. now exists (q :: qs).
Qed.

Lemma cumulative_growth_normalized (xs : list fval) :
  forallb nonzero xs = true -> xs <> [] ->
  cumulative_growth xs = NaN :: tl (normalized xs).
Proof.
  intros Hall Hne. destruct (nonzero_cells xs Hall) as (qs & ->).
  destruct qs as [|x0 rest]; [now elim Hne|].
  cbn [map] in *. unfold cumulative_growth, normalized, div_by_first.
  rewrite pct_change_cons. cbn [map tl add].
  cbn [forallb] in Hall. apply andb_prop in Hall as [H0 Hrest].
  cbn [nonzero] in H0. apply negb_true_iff in H0.
  pose proof (Qzerob_false _ H0) as H0'.
  unfold cumprod. cbn [fadd cumprod_from isna notna negb]. f_equal.
  apply growth_telescopes; try assumption. field. assumption.
Qed.

(** C9.  On a column of finite non-zero cells the cumulative-growth
    series is null at position 0 and equals the normalized series, the
    cell divided by the first cell, at every position [i >= 1]. *)
Theorem cumulative_growth_is_normalized (xs : list fval) (i : nat) :
  forallb nonzero xs = true -> (i < length xs)%nat ->
  (i = 0%nat -> nth_error (cumulative_growth xs) i = Some NaN)
  /\ ((1 <= i)%nat ->
      nth_error (cumulative_growth xs) i = nth_error (normalized xs) i
      /\ nth_error (normalized xs) i
         = Some (fdiv (nth i xs NaN) (nth 0 xs NaN))).
Proof.
  intros Hall Hi.
  assert (Hne : xs <> []) by (destruct xs; simpl in *; [lia|discriminate]).
  rewrite (cumulative_growth_normalized xs Hall Hne).
  split; [now intros ->|]. intros H1.
  destruct i as [|i]; [lia|]. cbn [nth_error].
  destruct xs as [|x0 rest]; [now elim Hne|].
  unfold normalized, div_by_first. cbn [map tl nth_error nth].
  split; [reflexivity|].
  rewrite nth_error_map.
  rewrite (nth_error_nth' rest NaN) by (simpl in Hi; lia). reflexivity.
Qed.

Lemma cumulative_growth_is_normalized_witness :
  forallb nonzero (values gdp_three) = true
  /\ nth_error (cumulative_growth (values gdp_three)) 2
     = nth_error (normalized (values gdp_three)) 2
  /\ nth_error (normalized (values gdp_three)) 2 = Some (Fin (121 # 100)).
Proof.
  split; [reflexivity|].
  refine (proj2 (cumulative_growth_is_normalized (values gdp_three) 2
                   eq_refl _) _); simpl; lia.
Defined.

(** ** Reading the ETF files (line 31 of [india_pearson.py], line 12 of
       [streamlit_app.py]) *)

Lemma skip_lines_1 (header row1 : list string) (rest : csv) :
  skip_lines [1%nat] (header :: row1 :: rest) = header :: rest.
Proof.
  unfold skip_lines. cbn [length seq combine filter existsb fst snd map
                          Nat.eqb orb negb].
  f_equal. rewrite filter_all.
  - apply map_snd_combine. now rewrite length_seq.
  - intros [k l] H. apply in_combine_l, in_seq in H. cbn [fst existsb].
    destruct (Nat.eqb_spec k 1); [lia|reflexivity].
Qed.

Lemma skip_lines_none (lines : csv) : skip_lines [] lines = lines.
Proof.
  unfold skip_lines. rewrite filter_all by reflexivity.
  apply map_snd_combine. now rewrite length_seq.
Qed.

Lemma read_csv_skip_1 (header : list string) (data : csv) :
  read_csv [1%nat] (Some (header :: data)) = inr (mkDataFrame header (tl data)).
Proof.
  unfold read_csv. destruct data as [|row1 rest].
  - reflexivity.
  - now rewrite skip_lines_1.
Qed.

Section Reading.

Variable sqrtQ : Q -> Q.
Variable parse_date : string -> option date.
Variable parse_num : string -> option Q.

(** C10.  Reading an ETF file discards the physical line 1, the line
    right after the header, whatever it holds: the frame has the
    header's columns and the lines from 2 on, so nothing either script
    computes depends on line 1, and a file whose line 1 is its first
    record loses that record.  The GDP file is read without the skip. *)
Theorem etf_reader_drops_line_1
        (header row1 : list string) (rest : csv) :
  read_csv [1%nat] (Some (header :: row1 :: rest))
  = inr (mkDataFrame header rest)
  /\ read_csv [] (Some (header :: row1 :: rest))
     = inr (mkDataFrame header (row1 :: rest))
  /\ (forall row1' path,
        load_etf_csv parse_date parse_num path
                     (Some (header :: row1 :: rest))
        = load_etf_csv parse_date parse_num path
                       (Some (header :: row1' :: rest)))
  /\ (forall row1' gdp_df file st,
        india_etf sqrtQ parse_date parse_num
                  (fun _ => Some (header :: row1 :: rest)) gdp_df file st
        = india_etf sqrtQ parse_date parse_num
                    (fun _ => Some (header :: row1' :: rest)) gdp_df file st).
Proof.
  split; [apply read_csv_skip_1|].
  split; [unfold read_csv; now rewrite skip_lines_none|].
  split.
  - intros row1' path. unfold load_etf_csv. now rewrite !read_csv_skip_1.
  - intros row1' gdp_df file st. unfold india_etf.
    now rewrite !read_csv_skip_1.
Qed.

(** C6.  When [Date] or [Price] is not among the trimmed header names,
    [load_etf_csv] raises its [ValueError]; the loop of
    [streamlit_app.py] catches it, warns and goes on with the next file,
    and the loop of [india_pearson.py], which makes the same test
    inline, prints its skip message and goes on.  Neither adds the ETF
    to its results. *)
Theorem missing_column_skips_the_etf (header : list string) (data : csv) :
  str_in "Date" (map strip header) = false
  \/ str_in "Price" (map strip header) = false ->
  (forall path,
      load_etf_csv parse_date parse_num path (Some (header :: data))
      = inl (ValueError path))
  /\ (forall gdp_df file rest a,
        endswith file ".csv" = true ->
        streamlit_loop sqrtQ parse_date parse_num gdp_df
                       ((file, header :: data) :: rest) a
        = streamlit_loop sqrtQ parse_date parse_num gdp_df rest
                         (mkapp (correlations a)
                                (warnings a
                                 ++ [Skipping file (ValueError file)])))
  /\ (forall fs gdp_df file rest st,
        fs file = Some (header :: data) ->
        india_loop sqrtQ parse_date parse_num fs gdp_df (file :: rest) st
        = india_loop sqrtQ parse_date parse_num fs gdp_df rest
                     (mkstate (results st)
                              (stdout st
                               ++ [SKIPPED_columns
                                     (str_remove "_daily.csv" file)]))).
Proof.
  intros Hmiss.
  assert (Hc : negb (str_in "Date" (map strip header))
               || negb (str_in "Price" (map strip header)) = true).
  { destruct Hmiss as [-> | ->]; [reflexivity|apply orb_true_r]. }
  assert (Hload : forall path,
             load_etf_csv parse_date parse_num path (Some (header :: data))
             = inl (ValueError path)).
  { intros path. unfold load_etf_csv. rewrite read_csv_skip_1.
    cbn [columns_str_strip columns]. now rewrite Hc. }
  split; [exact Hload|]. split.
  - intros gdp_df file rest a Hcsv.
    unfold streamlit_loop. cbn [fold_left]. f_equal.
    unfold streamlit_etf. cbn [fst snd]. now rewrite Hcsv, Hload.
  - intros fs gdp_df file rest st Hfs.
    unfold india_loop. cbn [fold_left]. f_equal.
    unfold india_etf. rewrite Hfs, read_csv_skip_1.
    cbn [columns_str_strip columns]. now rewrite Hc.
Qed.

End Reading.

Lemma missing_column_skips_the_etf_witness :
  (str_in "Date" (map strip ["Date"; " Close "]%string) = false
   \/ str_in "Price" (map strip ["Date"; " Close "]%string) = false)
  /\ load_etf_csv iso_date decimal "data/AAA_daily.csv"
                  (Some [["Date"; " Close "]; ["-"; "AAA"];
                         ["2020-01-15"; "10"]]%string)
     = inl (ValueError "data/AAA_daily.csv").
Proof.
  split; [right; reflexivity|].
  apply (missing_column_skips_the_etf sqrt6 iso_date decimal
           ["Date"; " Close "]%string [["-"; "AAA"]; ["2020-01-15"; "10"]]%string).
  right. reflexivity.
Defined.

(** Header names are matched after trimming. *)
Example padded_header_is_accepted :
  load_etf_csv iso_date decimal "data/AAA_daily.csv"
               (Some [[" Date"; "Price  "]; ["-"; "AAA"];
                      ["2020-01-15"; "10"]; ["2020-02-14"; "12"]]%string)
  = inr [(8080%Z, Fin 11)].
Proof. reflexivity. Qed.

(** ** The overlap checks and the whole-period coefficient (lines 47-52 of
       [india_pearson.py], lines 53-59 of [streamlit_app.py]) *)

Lemma setitem_In (k : string) (v : entry) (d : list (string * entry)) :
  In (k, v) (setitem k v d).
Proof.
  induction d as [|[k' v'] d IH]; simpl; [auto|].
  destruct (String.eqb k k'); simpl; auto.
Qed.

(** C5, as stated, fails in [streamlit_app.py]: an ETF whose prices meet
    the GDP series in five quarters is joined, correlated and entered in
    the summary, with no warning.  [india_pearson.py] skips the same
    file. *)
Lemma five_quarters_pass_the_streamlit_check :
  length (merge_inner
            (resample_Q_mean [(mkdate 2020 1 15, 10); (mkdate 2020 4 15, 11);
                              (mkdate 2020 7 15, 12); (mkdate 2020 10 15, 13);
                              (mkdate 2021 1 15, 15)])
            (resample_Q_mean [(mkdate 2020 3 31, 100); (mkdate 2020 6 30, 110);
                              (mkdate 2020 9 30, 121); (mkdate 2020 12 31, 130);
                              (mkdate 2021 3 31, 140)])) = 5%nat
  /\ (exists e,
        streamlit_app sqrt6 iso_date decimal (Some gdp_five)
                      [("AAA_daily.csv"%string, etf_five)]
        = inr (mkapp [("AAA"%string, e)] [])
        /\ is_fin (r_pearson e) = true)
  /\ (exists st,
        india_pearson sqrt6 iso_date decimal five_quarter_files
                      "processed_gdp_quarterly.csv"
        = inr st
        /\ results st = []
        /\ hd_error (stdout st) = Some (SKIPPED_overlap "FLIN" 5)).
Proof.
  split; [reflexivity|]. split.
  - eexists. split; [vm_compute; reflexivity | reflexivity].
  - eexists. split; [vm_compute; reflexivity | split; reflexivity].
Qed.

Section Checks.

Variable sqrtQ : Q -> Q.
Variable parse_date : string -> option date.
Variable parse_num : string -> option Q.

(** C5 (amended).  [india_pearson.py] skips an ETF, printing the count
    and leaving its results as they are, exactly when the join with GDP
    has fewer than 8 records once the records with a null field are
    dropped; otherwise it appends one summary for the ETF.
    [streamlit_app.py] skips an ETF, with a warning, exactly when the
    join is empty; otherwise it enters the ETF in its summary.  Either
    loop goes on with the next file after a skip.  With five joined
    records the first script skips the ETF and the second enters it. *)
Theorem overlap_check_of_each_script
        (etf_name : string) (etf_df gdp_df : series) :
  (forall st,
      (length (aligned etf_df gdp_df) < 8)%nat ->
      india_correlate sqrtQ etf_name etf_df gdp_df st
      = mkstate (results st)
                (stdout st ++ [SKIPPED_overlap etf_name
                                 (length (aligned etf_df gdp_df))]))
  /\ (forall st,
        (8 <= length (aligned etf_df gdp_df))%nat ->
        exists r,
          india_correlate sqrtQ etf_name etf_df gdp_df st
          = mkstate (results st ++ [r]) (stdout st)
          /\ ETF r = etf_name
          /\ Quarters_Used r = length (aligned etf_df gdp_df))
  /\ (forall a,
        length (merge_inner etf_df gdp_df) = 0%nat ->
        streamlit_correlate sqrtQ etf_name etf_df gdp_df a
        = mkapp (correlations a)
                (warnings a ++ [No_overlapping_dates etf_name]))
  /\ (forall a,
        (1 <= length (merge_inner etf_df gdp_df))%nat ->
        exists e,
          In (etf_name, e)
             (correlations
                (streamlit_correlate sqrtQ etf_name etf_df gdp_df a))
          /\ warnings (streamlit_correlate sqrtQ etf_name etf_df gdp_df a)
             = warnings a)
  /\ (forall fs file rest st,
        india_loop sqrtQ parse_date parse_num fs gdp_df (file :: rest) st
        = india_loop sqrtQ parse_date parse_num fs gdp_df rest
            (india_etf sqrtQ parse_date parse_num fs gdp_df file st))
  /\ (forall f rest a,
        streamlit_loop sqrtQ parse_date parse_num gdp_df (f :: rest) a
        = streamlit_loop sqrtQ parse_date parse_num gdp_df rest
            (streamlit_etf sqrtQ parse_date parse_num gdp_df f a)).
Proof.
  repeat split.
  - intros st H. unfold india_correlate.
    destruct (Nat.ltb_spec (length (aligned etf_df gdp_df)) 8);
      [reflexivity|lia].
  - intros st H. unfold india_correlate.
    destruct (Nat.ltb_spec (length (aligned etf_df gdp_df)) 8); [lia|].
    eexists. split; [reflexivity|]. split; reflexivity.
  - intros a H. unfold streamlit_correlate. now rewrite H.
  - intros a H. unfold streamlit_correlate.
    destruct (Nat.eqb_spec (length (merge_inner etf_df gdp_df)) 0); [lia|].
    eexists. split; [apply setitem_In|reflexivity].
Qed.

(** C7 (amended).  The whole-period coefficient of a frame is the
    coefficient of its records without a null field.  It is null, and
    nothing is raised, when fewer than two such records exist; it is a
    number exactly when the cells are finite and neither column is
    constant, and then it is the sample covariance over the product of
    the two sample standard deviations, clipped to [-1, 1]. *)
Theorem whole_period_pearson (m : frame) :
  let P := map Price (dropna m) in
  let G := map GDP_USD (dropna m) in
  let r := Series_corr sqrtQ pearson (col_Price m) (col_GDP_USD m) in
  r = corrcoef sqrtQ P G
  /\ ((length (dropna m) < 2)%nat -> r = NaN)
  /\ is_fin r
     = all_finite P && all_finite G && negb (constant P) && negb (constant G)
  /\ (forall xs ys,
        P = map Fin xs -> G = map Fin ys ->
        constantQ xs = false -> constantQ ys = false ->
        r = Fin (Qred (Qclip (-1) 1
                   (Qcov xs ys / sqrtQ (Qred (Qcov xs xs))
                    / sqrtQ (Qred (Qcov ys ys)))))).
Proof.
  intros P G r.
  assert (Hr : r = corrcoef sqrtQ P G) by apply Series_corr_frame.
  split; [exact Hr|]. split; [|split].
  - intros H. rewrite Hr. apply corrcoef_short. unfold P.
    now rewrite length_map.
  - rewrite Hr. apply corrcoef_is_fin.
  - intros xs ys HP HG Hx Hy. rewrite Hr, HP, HG.
    unfold corrcoef. rewrite !all_fin_map_Fin, !variance_zero, Hx, Hy.
    destruct xs as [|x [|x' xs]]; try discriminate. reflexivity.
Qed.

End Checks.

(** C7, as stated, fails on short input: [streamlit_app.py] reaches the
    coefficient with a single joined record, gets null for both
    coefficients and enters them in its summary; nothing is raised and
    no warning is issued. *)
Lemma one_record_gives_a_null_coefficient :
  Series_corr sqrt6 pearson [(8080%Z, Fin 10)] [(8080%Z, Fin 100)] = NaN
  /\ streamlit_app sqrt6 iso_date decimal (Some gdp_five)
                   [("AAA_daily.csv"%string, etf_one)]
     = inr (mkapp [("AAA"%string, mkentry NaN NaN)] []).
Proof. split; vm_compute; reflexivity. Qed.


(** * Further properties of the two scripts *)

(** ** Quarter labels *)

(** X1.  The date a quarter is labelled with lies in that quarter and is
    the last day of March, June, September or December. *)
Theorem quarter_end_lies_in_its_quarter (q : label) :
  quarter_of (quarter_end q) = q
  /\ In (month (quarter_end q), day (quarter_end q))
        [(3, 31); (6, 30); (9, 30); (12, 31)]%Z.
Proof.
  unfold quarter_of, quarter_end. cbn [year month day].
  pose proof (Z.mod_pos_bound q 4 eq_refl) as Hm.
  pose proof (Z.div_mod q 4) as Hq.
  split.
  - replace (3 * (q mod 4) + 3 - 1)%Z with (2 + (q mod 4) * 3)%Z by lia.
    rewrite Z.div_add by lia. change (2 / 3)%Z with 0%Z. lia.
  - assert (q mod 4 = 0 \/ q mod 4 = 1 \/ q mod 4 = 2 \/ q mod 4 = 3)%Z
      as [E|[E|[E|E]]] by lia; rewrite E; simpl; tauto.
Qed.

(** X2.  For a calendar date, the label of its quarter is a date of the
    same year, at most two months later. *)
Theorem quarter_end_of_a_date (d : date) :
  (1 <= month d <= 12)%Z ->
  year (quarter_end (quarter_of d)) = year d
  /\ (month d <= month (quarter_end (quarter_of d)) <= month d + 2)%Z.
Proof.
  intros Hm. unfold quarter_of, quarter_end. cbn [year month day].
  Z.to_euclidean_division_equations. lia.
Qed.

Lemma quarter_end_of_a_date_witness :
  (1 <= month (mkdate 2020 7 15) <= 12)%Z
  /\ year (quarter_end (quarter_of (mkdate 2020 7 15))) = 2020%Z
  /\ (7 <= month (quarter_end (quarter_of (mkdate 2020 7 15))) <= 9)%Z.
Proof.
  split; [simpl; lia|].
  apply (quarter_end_of_a_date (mkdate 2020 7 15)). simpl. lia.
Defined.

(** ** The resampled frame is in calendar order *)

Lemma consecutive_sorted (lo : Z) (n s : nat) :
  StronglySorted Z.lt (map (fun k => (lo + Z.of_nat k)%Z) (seq s n)).
Proof.
  revert s. induction n as [|n IH]; intros s; simpl; constructor.
  - apply IH.
  - apply Forall_forall. intros x Hx.
    apply in_map_iff in Hx as (k & <- & Hk). apply in_seq in Hk. lia.
Qed.

Lemma resample_index_sorted (obs : list (date * Q)) :
  StronglySorted Z.lt (index (resample_Q_mean obs)).
Proof.
  destruct obs as [|o obs]; [constructor|].
  rewrite resample_index. apply consecutive_sorted.
Qed.

(** X3.  The rows of a resampled frame stand in increasing order of
    their quarters, and each quarter is the one right after the quarter of
    the row before. *)
Theorem resample_is_in_calendar_order (obs : list (date * Q)) :
  StronglySorted Z.lt (index (resample_Q_mean obs))
  /\ (forall i q q',
        nth_error (index (resample_Q_mean obs)) i = Some q ->
        nth_error (index (resample_Q_mean obs)) (S i) = Some q' ->
        q' = (q + 1)%Z).
Proof.
  split; [apply resample_index_sorted|].
  destruct obs as [|o obs]; [now intros [|i]|].
  rewrite resample_index. cbv zeta.
  intros i q q'. rewrite !nth_error_map, !nth_error_seq.
  set (N := Z.to_nat _).
  destruct (Nat.ltb i N), (Nat.ltb (S i) N); simpl; try discriminate.
  intros [= <-] [= <-]. lia.
Qed.

(** ** The inner join keeps what both sides hold *)

(** X4.  A record is in the join exactly when its quarter and price are
    a row of the left frame and its quarter and GDP a row of the right
    frame. *)
Theorem merge_inner_records (a b : series) (r : row) :
  In r (merge_inner a b)
  <-> In (Date r, Price r) a /\ In (Date r, GDP_USD r) b.
Proof.
  unfold merge_inner. rewrite in_flat_map. split.
  - intros ([k x] & Ha & H). apply in_map_iff in H as ([k' y] & <- & Hy).
    apply filter_In in Hy as [Hb E]. cbn in *.
    apply Z.eqb_eq in E. subst k'. auto.
  - intros [Ha Hb]. exists (Date r, Price r). split; [assumption|].
    apply in_map_iff. exists (Date r, GDP_USD r). split.
    + now destruct r.
    + apply filter_In. split; [assumption|]. cbn. apply Z.eqb_refl.
Qed.

Lemma merge_inner_sorted (a b : series) :
  StronglySorted Z.lt (index a) -> NoDup (index b) ->
  StronglySorted Z.lt (map Date (merge_inner a b)).
Proof.
  intros Ha Hb. induction a as [|x a IH]; [constructor|].
  unfold index in Ha. cbn [map] in Ha.
  apply StronglySorted_inv in Ha as [Ha' Hx].
  change (merge_inner (x :: a) b)
    with (map (fun y => mkrow (fst x) (snd x) (snd y))
              (filter (fun y => (fst y =? fst x)%Z) b) ++ merge_inner a b).
  rewrite map_app, map_map. cbn [Date].
  pose proof (matches_at_most_one (fst x) b Hb) as Hone.
  destruct (filter (fun y => (fst y =? fst x)%Z) b) as [|y [|y' l]];
    cbn [map List.app length] in *; [now apply IH| |lia].
  constructor; [now apply IH|].
  apply Forall_forall. intros d Hd.
  apply merge_inner_Date_In in Hd.
  rewrite Forall_forall in Hx. now apply Hx.
Qed.

Lemma filter_keeps_sorted {R : Type} (keep : R -> bool) (key : R -> Z)
      (m : list R) :
  StronglySorted Z.lt (map key m) ->
  StronglySorted Z.lt (map key (filter keep m)).
Proof.
  induction m as [|r m IH]; simpl; intros H; [constructor|].
  apply StronglySorted_inv in H as [Hm Hr].
  destruct (keep r); simpl; [|auto]. constructor; [auto|].
  rewrite Forall_forall in *. intros d Hd.
  apply in_map_iff in Hd as (y & <- & Hy). apply filter_In in Hy as [Hy _].
  apply Hr. now apply in_map.
Qed.

Lemma sorted_min (q : Z) (qs : list Z) :
  StronglySorted Z.lt (q :: qs) -> fold_right Z.min q qs = q.
Proof.
  intros H. apply StronglySorted_inv in H as [_ H].
  induction qs as [|x qs IH]; simpl; [reflexivity|].
  inversion H as [|? ? Hx Hqs]; subst. rewrite (IH Hqs). lia.
Qed.

Lemma last_cons {A : Type} (x d : A) (l : list A) :
  last (x :: l) d = last l x.
Proof.
  revert x d. induction l as [|t l IH]; intros x d; [reflexivity|].
  change (last (x :: t :: l) d) with (last (t :: l) d).
  now rewrite !IH.
Qed.

Lemma last_In {A : Type} (x : A) (l : list A) : In (last l x) (x :: l).
Proof.
  revert x. induction l as [|t l IH]; intros x; [left; reflexivity|].
  right. rewrite last_cons. apply IH.
Qed.

Lemma sorted_last_is_greatest (q : Z) (qs : list Z) :
  StronglySorted Z.lt (q :: qs) ->
  forall y, In y (q :: qs) -> (y <= last qs q)%Z.
Proof.
  revert q. induction qs as [|x qs IH]; intros q H y Hy.
  - destruct Hy as [->|[]]. simpl. lia.
  - apply StronglySorted_inv in H as [Hs Hq]. rewrite last_cons.
    destruct Hy as [->|Hy]; [|now apply IH].
    rewrite Forall_forall in Hq.
    specialize (Hq x (or_introl eq_refl)).
    specialize (IH x Hs x (or_introl eq_refl)). lia.
Qed.

Lemma sorted_max (q : Z) (qs : list Z) :
  StronglySorted Z.lt (q :: qs) -> fold_right Z.max q qs = last qs q.
Proof.
  intros H.
  pose proof (sorted_last_is_greatest q qs H _ (fold_max_In q qs)).
  pose proof (fold_max_ge q qs _ (last_In q qs)). lia.
Qed.

Lemma last_map {A B : Type} (f : A -> B) (l : list A) (d : A) :
  last (map f l) (f d) = f (last l d).
Proof.
  induction l as [|x [|y l] IH]; simpl in *; auto.
Qed.

(** X5.  The frame [india_pearson.py] correlates lists its quarters in
    increasing order, so the [Start] and [End] it reports are the quarters
    of its first and of its last record. *)
Theorem aligned_frame_is_in_calendar_order (etf gdp : list (date * Q)) :
  let merged := aligned (resample_Q_mean etf) (resample_Q_mean gdp) in
  StronglySorted Z.lt (map Date merged)
  /\ (forall r0 rest, merged = r0 :: rest ->
        index_min merged = Date r0
        /\ index_max merged = Date (last rest r0)).
Proof.
  intros merged.
  assert (Hs : StronglySorted Z.lt (map Date merged)).
  { unfold merged, aligned, dropna. apply filter_keeps_sorted.
    apply merge_inner_sorted;
      [apply resample_index_sorted | apply resample_index_NoDup]. }
  split; [exact Hs|].
  intros r0 rest E. rewrite E in Hs |- *.
  unfold index_min, index_max. cbn [map] in *.
  rewrite sorted_min, sorted_max by assumption.
  split; [reflexivity | apply last_map].
Qed.

(** ** The GDP file is read outside any handler *)

Lemma position_None (name : string) (l : list string) :
  str_in name l = false -> position name l = None.
Proof.
  unfold str_in. induction l as [|c l IH]; simpl; [reflexivity|].
  destruct (String.eqb name c); simpl; [discriminate|].
  intros H. now rewrite IH.
Qed.

Lemma position_Some (name : string) (l : list string) :
  str_in name l = true -> exists k, position name l = Some k.
Proof.
  unfold str_in. induction l as [|c l IH]; simpl; [discriminate|].
  destruct (String.eqb name c); simpl; [now exists 0%nat|].
  intros H. destruct (IH H) as (k & ->). now exists (S k).
Qed.

Section Runs.

Variable sqrtQ : Q -> Q.
Variable parse_date : string -> option date.
Variable parse_num : string -> option Q.

(** X6.  A GDP file without a [Date] or a [GDP_USD] column, names
    trimmed, makes the loader raise [KeyError] for the first of the two
    that is missing, and either script ends with that error before it
    looks at any ETF: nothing around the GDP load catches it. *)
Theorem gdp_without_a_column_ends_the_run
        (header : list string) (data : csv) :
  str_in "Date" (map strip header) = false
  \/ str_in "GDP_USD" (map strip header) = false ->
  let c := if str_in "Date" (map strip header)
           then "GDP_USD"%string else "Date"%string in
  load_gdp_csv parse_date parse_num (Some (header :: data))
  = inl (KeyError c)
  /\ (forall fs gdp_file,
        fs gdp_file = Some (header :: data) ->
        india_pearson sqrtQ parse_date parse_num fs gdp_file
        = inl (KeyError c))
  /\ (forall listdir,
        streamlit_app sqrtQ parse_date parse_num (Some (header :: data))
                      listdir
        = inl (KeyError c)).
Proof.
  intros Hmiss c.
  assert (Hload : load_gdp_csv parse_date parse_num (Some (header :: data))
                  = inl (KeyError c)).
  { unfold load_gdp_csv, read_csv. rewrite skip_lines_none.
    unfold clean_resample, getitem. cbn [columns_str_strip columns rows].
    unfold c. destruct (str_in "Date" (map strip header)) eqn:Hd.
    - destruct Hmiss as [?|Hg]; [discriminate|].
      destruct (position_Some _ _ Hd) as (k & ->).
      now rewrite (position_None _ _ Hg).
    - now rewrite (position_None _ _ Hd). }
  split; [exact Hload|]. split.
  - intros fs gdp_file Hfs. unfold india_pearson. now rewrite Hfs, Hload.
  - intros listdir. unfold streamlit_app. now rewrite Hload.
Qed.

(** ** What the loop of [india_pearson.py] does with each file *)

Lemma india_etf_one_effect (fs : string -> option csv) (gdp_df : series)
      (file : string) (st : state) :
  let st' := india_etf sqrtQ parse_date parse_num fs gdp_df file st in
  (exists r, results st' = results st ++ [r] /\ stdout st' = stdout st
             /\ ETF r = str_remove "_daily.csv" file
             /\ (8 <= Quarters_Used r)%nat)
  \/ (exists l, results st' = results st /\ stdout st' = stdout st ++ [l]).
Proof.
  cbv zeta. unfold india_etf.
  destruct (read_csv [1%nat] (fs file)) as [e|df];
    [right; eexists; split; reflexivity|].
  destruct (negb _ || negb _); [right; eexists; split; reflexivity|].
  destruct (clean_resample _ _ _ _ _) as [e|etf_df];
    [right; eexists; split; reflexivity|].
  unfold india_correlate.
  destruct (Nat.ltb_spec (length (aligned etf_df gdp_df)) 8);
    [right; eexists; split; reflexivity|].
  left. eexists. repeat split. assumption.
Qed.

(** X7.  The loop handles every file on its own: each file either adds
    one summary, named after the file and built on at least 8 quarters,
    or prints one line; earlier summaries and lines stay as they are, and
    a file that fails does not stop the files after it. *)
Theorem india_loop_accounts_for_every_file
        (fs : string -> option csv) (gdp_df : series)
        (files : list string) (st : state) :
  let st' := india_loop sqrtQ parse_date parse_num fs gdp_df files st in
  exists rs ls,
    results st' = results st ++ rs
    /\ stdout st' = stdout st ++ ls
    /\ (length rs + length ls = length files)%nat
    /\ Forall (fun r => (8 <= Quarters_Used r)%nat
                        /\ In (ETF r)
                              (map (str_remove "_daily.csv") files)) rs.
Proof.
  cbv zeta. revert st. induction files as [|file files IH]; intros st.
  - exists [], []. rewrite !app_nil_r. repeat split. constructor.
  - unfold india_loop. cbn [fold_left].
    fold (india_loop sqrtQ parse_date parse_num fs gdp_df files
            (india_etf sqrtQ parse_date parse_num fs gdp_df file st)).
    destruct (IH (india_etf sqrtQ parse_date parse_num fs gdp_df file st))
      as (rs & ls & Hr & Hl & Hn & Hall).
    assert (Hall' : Forall (fun r => (8 <= Quarters_Used r)%nat
                       /\ In (ETF r) (map (str_remove "_daily.csv")
                                          (file :: files))) rs).
    { eapply Forall_impl; [|exact Hall]. cbn. intros r [A B]. auto. }
    destruct (india_etf_one_effect fs gdp_df file st)
      as [(r & Er & El & En & Eq)|(l & Er & El)].
    + exists (r :: rs), ls. rewrite Hr, Hl, Er, El, <- app_assoc.
      repeat split; [cbn; lia|].
      constructor; [|exact Hall']. split; [assumption|]. left. now symmetry.
    + exists rs, (l :: ls). rewrite Hr, Hl, Er, El, <- app_assoc.
      repeat split; [cbn; lia | exact Hall'].
Qed.

(** ** The summary of [streamlit_app.py] *)

Lemma setitem_keys (k : string) (v : entry) (d : list (string * entry)) :
  map fst (setitem k v d)
  = if str_in k (map fst d) then map fst d else map fst d ++ [k].
Proof.
  unfold str_in. induction d as [|[k' v'] d IH]; [reflexivity|].
  cbn [setitem map fst existsb].
  destruct (String.eqb_spec k k') as [->|Hne]; cbn [map fst orb];
    [reflexivity|].
  rewrite IH. now destruct (existsb (String.eqb k) (map fst d)).
Qed.

Lemma str_in_In (k : string) (l : list string) :
  str_in k l = true <-> In k l.
Proof.
  unfold str_in. rewrite existsb_exists. split.
  - intros (x & Hx & E). apply String.eqb_eq in E. now subst.
  - intros H. exists k. split; [assumption | apply String.eqb_refl].
Qed.

Lemma NoDup_snoc {A : Type} (l : list A) (k : A) :
  NoDup l -> ~ In k l -> NoDup (l ++ [k]).
Proof.
  induction l as [|x l IH]; simpl; intros H Hk.
  - repeat constructor. tauto.
  - inversion H as [|? ? Hx Hl]; subst. constructor.
    + rewrite in_app_iff. simpl. intros [?|[?|[]]]; [tauto|subst; tauto].
    + apply IH; tauto.
Qed.

Lemma setitem_NoDup (k : string) (v : entry) (d : list (string * entry)) :
  NoDup (map fst d) -> NoDup (map fst (setitem k v d)).
Proof.
  intros H. rewrite setitem_keys.
  destruct (str_in k (map fst d)) eqn:E; [assumption|].
  apply NoDup_snoc; [assumption|].
  intros Hin. apply str_in_In in Hin. congruence.
Qed.

Lemma insert_by_name_perm {A : Type} (x : string * A)
      (l : list (string * A)) :
  Permutation (insert_by_name x l) (x :: l).
Proof.
  induction l as [|y l IH]; simpl; [reflexivity|].
  destruct (String.leb (fst x) (fst y)); [reflexivity|].
  rewrite IH. apply perm_swap.
Qed.

Lemma sorted_by_name_perm {A : Type} (l : list (string * A)) :
  Permutation (sorted_by_name l) l.
Proof.
  unfold sorted_by_name. induction l as [|x l IH]; simpl; [reflexivity|].
  rewrite insert_by_name_perm. now constructor.
Qed.

Lemma insert_by_name_sorted {A : Type} (x : string * A)
      (l : list (string * A)) :
  Sorted (fun u v => String.leb (fst u) (fst v) = true) l ->
  Sorted (fun u v => String.leb (fst u) (fst v) = true) (insert_by_name x l).
Proof.
  induction l as [|y l IH]; simpl; intros H; [repeat constructor|].
  destruct (String.leb (fst x) (fst y)) eqn:E.
  - constructor; [assumption|]. now constructor.
  - apply Sorted_inv in H as [Hs Hy]. constructor; [now apply IH|].
    assert (Hyx : String.leb (fst y) (fst x) = true)
      by (destruct (String.leb_total (fst x) (fst y)); congruence).
    destruct l as [|z l]; simpl; [now constructor|].
    destruct (String.leb (fst x) (fst z)); constructor; [assumption|].
    now inversion Hy.
Qed.

(** X8.  The files [streamlit_app.py] works through are the directory
    entries whose name ends in [_daily.csv], each once, in the order of
    their names. *)
Theorem listing_is_filtered_and_sorted {A : Type}
        (listdir : list (string * A)) :
  let files := sorted_by_name
                 (filter (fun f => endswith (fst f) "_daily.csv") listdir) in
  Permutation files
              (filter (fun f => endswith (fst f) "_daily.csv") listdir)
  /\ Sorted (fun u v => String.leb (fst u) (fst v) = true) files
  /\ (forall f, In f files <->
                In f listdir /\ endswith (fst f) "_daily.csv" = true).
Proof.
  cbv zeta. split; [apply sorted_by_name_perm|]. split.
  - unfold sorted_by_name.
    induction (filter _ listdir) as [|x l IH]; simpl; [constructor|].
    now apply insert_by_name_sorted.
  - intros f. split.
    + intros H. apply (Permutation_in _ (sorted_by_name_perm _)) in H.
      now apply filter_In in H.
    + intros H.
      apply (Permutation_in _ (Permutation_sym (sorted_by_name_perm _))).
      now apply filter_In.
Qed.

Lemma prefix_app (a b s : string) :
  String.prefix (a ++ b) s = true -> String.prefix a s = true.
Proof.
  revert s. induction a as [|c a IH]; intros s; [now destruct s|].
  destruct s as [|c' s]; simpl; [discriminate|].
  destruct (ascii_dec c c'); [apply IH | discriminate].
Qed.

Lemma daily_csv_is_csv (file : string) :
  endswith file "_daily.csv" = true -> endswith file ".csv" = true.
Proof.
  unfold endswith.
  change (str_rev "_daily.csv") with ("vsc." ++ "yliad_")%string.
  apply prefix_app.
Qed.

(** X9.  The test [if not file.endswith(".csv"): continue] inside the
    loop of [streamlit_app.py] never fires: every file the loop is given
    ends in [_daily.csv], hence in [.csv], and is handed to the loader. *)
Theorem csv_suffix_test_is_dead (gdp_df : series) (f : string * csv)
        (a : app) :
  endswith (fst f) "_daily.csv" = true ->
  endswith (fst f) ".csv" = true
  /\ streamlit_etf sqrtQ parse_date parse_num gdp_df f a
     = match load_etf_csv parse_date parse_num (fst f) (Some (snd f)) with
       | inl e => st_warning (Skipping (fst f) e) a
       | inr etf_df =>
           streamlit_correlate sqrtQ (str_remove "_daily.csv" (fst f))
                               etf_df gdp_df a
       end.
Proof.
  intros H. pose proof (daily_csv_is_csv _ H) as Hcsv.
  split; [exact Hcsv|]. unfold streamlit_etf. now rewrite Hcsv.
Qed.

Lemma streamlit_etf_one_effect (gdp_df : series) (f : string * csv)
      (a : app) :
  let a' := streamlit_etf sqrtQ parse_date parse_num gdp_df f a in
  a' = a
  \/ (exists w, correlations a' = correlations a
                /\ warnings a' = warnings a ++ [w])
  \/ (exists e, correlations a'
                = setitem (str_remove "_daily.csv" (fst f)) e
                          (correlations a)
                /\ warnings a' = warnings a).
Proof.
  cbv zeta. unfold streamlit_etf.
  destruct (negb (endswith (fst f) ".csv")); [now left|].
  destruct (load_etf_csv _ _ _ _) as [e|etf_df];
    [right; left; eexists; split; reflexivity|].
  unfold streamlit_correlate.
  destruct (length (merge_inner etf_df gdp_df) =? 0)%nat;
    [right; left; eexists; split; reflexivity|].
  right. right. eexists. split; reflexivity.
Qed.

Lemma streamlit_loop_invariant (gdp_df : series)
      (files : list (string * csv)) (a : app) :
  NoDup (map fst (correlations a)) ->
  let a' := streamlit_loop sqrtQ parse_date parse_num gdp_df files a in
  NoDup (map fst (correlations a'))
  /\ (forall k, In k (map fst (correlations a')) ->
        In k (map fst (correlations a))
        \/ In k (map (fun f => str_remove "_daily.csv" (fst f)) files))
  /\ exists ws, warnings a' = warnings a ++ ws
       /\ (length (correlations a') + length ws
           <= length (correlations a) + length files)%nat.
Proof.
  cbv zeta. revert a. induction files as [|f files IH]; intros a Hnd.
  - cbn. split; [assumption|]. split; [auto|].
    exists []. rewrite app_nil_r. split; [reflexivity|cbn; lia].
  - unfold streamlit_loop. cbn [fold_left].
    fold (streamlit_loop sqrtQ parse_date parse_num gdp_df files
            (streamlit_etf sqrtQ parse_date parse_num gdp_df f a)).
    set (a1 := streamlit_etf sqrtQ parse_date parse_num gdp_df f a).
    pose proof (streamlit_etf_one_effect gdp_df f a) as Heff.
    cbv zeta in Heff. fold a1 in Heff.
    assert (H1 : NoDup (map fst (correlations a1))
                 /\ (forall k, In k (map fst (correlations a1)) ->
                       In k (map fst (correlations a))
                       \/ k = str_remove "_daily.csv" (fst f))
                 /\ exists ws1, warnings a1 = warnings a ++ ws1
                      /\ (length (correlations a1) + length ws1
                          <= length (correlations a) + 1)%nat).
    { destruct Heff as [E|[(w & Ec & Ew)|(e & Ec & Ew)]].
      - rewrite E. split; [assumption|]. split; [auto|].
        exists []. rewrite app_nil_r. split; [reflexivity|cbn; lia].
      - rewrite Ec. split; [assumption|]. split; [auto|].
        exists [w]. split; [assumption|cbn; lia].
      - rewrite Ec. split; [now apply setitem_NoDup|]. split.
        + intros k. rewrite setitem_keys.
          destruct (str_in _ _); [auto|].
          rewrite in_app_iff. cbn. intuition.
        + exists []. rewrite app_nil_r. split; [assumption|].
          pose proof (f_equal (@length _)
                        (setitem_keys (str_remove "_daily.csv" (fst f)) e
                                      (correlations a))) as Hl.
          rewrite length_map in Hl.
          destruct (str_in _ _); rewrite ?length_app, !length_map in Hl;
            cbn in *; lia. }
    destruct H1 as (Hnd1 & Hk1 & ws1 & Hw1 & Hl1).
    destruct (IH a1 Hnd1) as (Hnd' & Hk' & ws & Hw & Hl).
    split; [assumption|]. split.
    + intros k Hk. destruct (Hk' k Hk) as [Hk2|Hk2].
      * destruct (Hk1 k Hk2) as [Hk3|Hk3]; [now left|].
        right. left. now symmetry.
      * right. now right.
    + exists (ws1 ++ ws). rewrite Hw, Hw1, <- app_assoc.
      split; [reflexivity|]. rewrite length_app. cbn [length]. lia.
Qed.

(** X10.  A run of [streamlit_app.py] that gets past the GDP file ends
    with a summary in which every name occurs once and is the name of a
    listed file without its [_daily.csv]; entries and warnings together
    number at most the listed files. *)
Theorem streamlit_summary_names_each_etf_once
        (gdp : option csv) (listdir : list (string * csv)) :
  match streamlit_app sqrtQ parse_date parse_num gdp listdir with
  | inl _ => True
  | inr a =>
      NoDup (map fst (correlations a))
      /\ (forall k, In k (map fst (correlations a)) ->
            exists f, In f listdir
                      /\ endswith (fst f) "_daily.csv" = true
                      /\ k = str_remove "_daily.csv" (fst f))
      /\ (length (correlations a) + length (warnings a)
          <= length (filter (fun f => endswith (fst f) "_daily.csv")
                            listdir))%nat
  end.
Proof.
  unfold streamlit_app.
  destruct (load_gdp_csv parse_date parse_num gdp) as [e|gdp_df];
    [exact I|].
  set (files := sorted_by_name (filter _ listdir)).
  destruct (streamlit_loop_invariant gdp_df files (mkapp [] [])
              (NoDup_nil _)) as (Hnd & Hk & ws & Hw & Hl).
  cbn [correlations warnings List.app length] in *.
  split; [assumption|]. split.
  - intros k Hin. destruct (Hk k Hin) as [[]|Hin'].
    apply in_map_iff in Hin' as (f & <- & Hf).
    apply (Permutation_in _ (sorted_by_name_perm _)) in Hf.
    apply filter_In in Hf as [Hf He]. exists f. auto.
  - rewrite Hw.
    rewrite <- (Permutation_length (sorted_by_name_perm
                  (filter (fun f => endswith (fst f) "_daily.csv") listdir))).
    fold files. lia.
Qed.

End Runs.

(** ** Files without a usable record *)

Lemma coerce_dropna_nil (parse_date : string -> option date)
      (parse_num : string -> option Q) (ds vs : list string) :
  (forall p, In p (combine ds vs) ->
             parse_date (fst p) = None \/ parse_num (snd p) = None) ->
  coerce_dropna parse_date parse_num ds vs = [].
Proof.
  unfold coerce_dropna. induction (combine ds vs) as [|p l IH];
    intros H; [reflexivity|].
  cbn [flat_map]. rewrite IH by (intros; apply H; now right).
  destruct (H p (or_introl eq_refl)) as [-> | E]; [reflexivity|].
  rewrite E. now destruct (parse_date (fst p)).
Qed.

Section Unusable.

Variable sqrtQ : Q -> Q.
Variable parse_date : string -> option date.
Variable parse_num : string -> option Q.

(** X11.  An ETF file that has both columns but no line, after the
    skipped one, whose date and price both parse, loads as an empty frame:
    [india_pearson.py] reports 0 overlapping quarters and
    [streamlit_app.py] warns that no dates overlap; the ETF is left out
    and the run goes on. *)
Theorem etf_without_a_usable_row_is_skipped
        (header : list string) (data : csv) :
  str_in "Date" (map strip header) = true ->
  str_in "Price" (map strip header) = true ->
  (forall r, In r (tl data) ->
     parse_date (cell (map strip header) "Date" r) = None
     \/ parse_num (cell (map strip header) "Price" r) = None) ->
  (forall path,
      load_etf_csv parse_date parse_num path (Some (header :: data))
      = inr [])
  /\ (forall fs gdp_df file st,
        fs file = Some (header :: data) ->
        india_etf sqrtQ parse_date parse_num fs gdp_df file st
        = mkstate (results st)
                  (stdout st
                   ++ [SKIPPED_overlap (str_remove "_daily.csv" file) 0]))
  /\ (forall gdp_df file a,
        endswith file ".csv" = true ->
        streamlit_etf sqrtQ parse_date parse_num gdp_df
                      (file, header :: data) a
        = mkapp (correlations a)
                (warnings a
                 ++ [No_overlapping_dates (str_remove "_daily.csv" file)])).
Proof.
  intros Hd Hp Hrows.
  assert (Hc : negb (str_in "Date" (map strip header))
               || negb (str_in "Price" (map strip header)) = false)
    by (now rewrite Hd, Hp).
  assert (Hclean : clean_resample parse_date parse_num
                     (mkDataFrame (map strip header) (tl data))
                     "Date" "Price" = inr []).
  { unfold clean_resample, getitem. cbn [columns rows].
    destruct (position_Some _ _ Hd) as (kd & Ed).
    destruct (position_Some _ _ Hp) as (kp & Ep).
    rewrite Ed, Ep, coerce_dropna_nil; [reflexivity|].
    intros p Hin. rewrite combine_map_same in Hin.
    apply in_map_iff in Hin as (r & <- & Hr). cbn [fst snd].
    specialize (Hrows r Hr). unfold cell in Hrows.
    now rewrite Ed, Ep in Hrows. }
  assert (Hload : forall path,
             load_etf_csv parse_date parse_num path (Some (header :: data))
             = inr []).
  { intros path. unfold load_etf_csv. rewrite read_csv_skip_1.
    unfold columns_str_strip. cbn [columns rows]. now rewrite Hc, Hclean. }
  split; [exact Hload|]. split.
  - intros fs gdp_df file st Hfs. unfold india_etf.
    rewrite Hfs, read_csv_skip_1. unfold columns_str_strip.
    cbn [columns rows]. rewrite Hc, Hclean. reflexivity.
  - intros gdp_df file a Hcsv. unfold streamlit_etf. cbn [fst snd].
    rewrite Hcsv, Hload. reflexivity.
Qed.

End Unusable.

Lemma etf_without_a_usable_row_is_skipped_witness :
  str_in "Date" (map strip ["Date"; "Price"]%string) = true
  /\ load_etf_csv iso_date decimal "data/AAA_daily.csv"
                  (Some [["Date"; "Price"]; ["-"; "AAA"];
                         ["n/a"; "10"]; ["2020-01-15"; "-"]]%string)
     = inr [].
Proof.
  split; [reflexivity|].
  apply (etf_without_a_usable_row_is_skipped sqrt6 iso_date decimal
           ["Date"; "Price"]%string
           [["-"; "AAA"]; ["n/a"; "10"]; ["2020-01-15"; "-"]]%string);
    try reflexivity.
  intros r [<-|[<-|[]]]; [left | right]; reflexivity.
Defined.

(** ** The summary chart *)

Lemma precedes_total (a b : fval) :
  precedes a b = false -> precedes b a = true.
Proof.
  destruct a as [x|[|]|], b as [y|[|]|]; simpl;
    try discriminate; try reflexivity.
  rewrite !negb_involutive. intros H. apply Qle_bool_iff.
  destruct (Qlt_le_dec y x) as [L|L]; [|exact L].
  apply Qlt_le_weak, Qle_bool_iff in L. congruence.
Qed.

Lemma insert_desc_perm (r : result) (l : list result) :
  Permutation (insert_desc r l) (r :: l).
Proof.
  induction l as [|y l IH]; simpl; [reflexivity|].
  destruct (precedes _ _); [reflexivity|].
  rewrite IH. apply perm_swap.
Qed.

Lemma insert_desc_sorted (r : result) (l : list result) :
  Sorted (fun u v => precedes (Pearson_Correlation u)
                              (Pearson_Correlation v) = true) l ->
  Sorted (fun u v => precedes (Pearson_Correlation u)
                              (Pearson_Correlation v) = true)
         (insert_desc r l).
Proof.
  induction l as [|y l IH]; simpl; intros H; [repeat constructor|].
  destruct (precedes (Pearson_Correlation r) (Pearson_Correlation y)) eqn:E.
  - constructor; [assumption|]. now constructor.
  - apply Sorted_inv in H as [Hs Hy]. constructor; [now apply IH|].
    apply precedes_total in E.
    destruct l as [|z l]; simpl; [now constructor|].
    destruct (precedes (Pearson_Correlation r) (Pearson_Correlation z));
      constructor; [assumption|]. now inversion Hy.
Qed.

(** X12.  The summary chart needs at least one summary: with none, for
    instance when every ETF was skipped, the sort raises [KeyError] and
    the script ends with it.  Otherwise the chart shows the loop's
    summaries, each once, by descending coefficient with the null
    coefficients last. *)
Theorem summary_chart_order (rs : list result) :
  (rs = [] -> df_results rs = inl (KeyError "Pearson_Correlation"))
  /\ (rs <> [] ->
      exists chart,
        df_results rs = inr chart
        /\ Permutation chart rs
        /\ Sorted (fun u v => precedes (Pearson_Correlation u)
                                       (Pearson_Correlation v) = true)
                  chart)
  /\ (forall sqrtQ parse_date parse_num fs gdp_file st,
        india_pearson sqrtQ parse_date parse_num fs gdp_file = inr st ->
        results st = [] ->
        india_pearson_main sqrtQ parse_date parse_num fs gdp_file
        = inl (KeyError "Pearson_Correlation")).
Proof.
  split; [now intros ->|]. split.
  - intros Hne. exists (sort_values_desc rs).
    split; [destruct rs; [now elim Hne|reflexivity]|].
    unfold sort_values_desc. clear Hne. split.
    + induction rs as [|r rs IH]; simpl; [reflexivity|].
      rewrite insert_desc_perm. now constructor.
    + induction rs as [|r rs IH]; simpl; [constructor|].
      now apply insert_desc_sorted.
  - intros sqrtQ parse_date parse_num fs gdp_file st E Hr.
    unfold india_pearson_main. now rewrite E, Hr.
Qed.

(** ** ETF names *)

Lemma remove_daily_csv_step (c : ascii) (s : string) :
  c <> "_"%char ->
  remove_from 0 "_daily.csv" (String c s)
  = String c (remove_from 0 "_daily.csv" s).
Proof.
  intros Hc. cbn [remove_from String.prefix].
  destruct (ascii_dec "_" c) as [E|E]; [now elim Hc|].
  destruct s; reflexivity.
Qed.

(** X13.  For a file named [X_daily.csv] with no underscore in [X], the
    ETF name both scripts use is [X]. *)
Theorem etf_name_of_a_file (X : string) :
  forallb (fun c => negb (Ascii.eqb c "_")) (list_ascii_of_string X) = true ->
  str_remove "_daily.csv" (X ++ "_daily.csv") = X.
Proof.
  unfold str_remove. induction X as [|c X IH]; intros H; [reflexivity|].
  cbn [list_ascii_of_string forallb] in H.
  apply andb_prop in H as [Hc HX]. apply negb_true_iff in Hc.
  change ((String c X ++ "_daily.csv")%string)
    with (String c (X ++ "_daily.csv")%string).
  rewrite remove_daily_csv_step.
  - now rewrite IH.
  - intros ->. discriminate.
Qed.

Lemma etf_name_of_a_file_witness :
  forallb (fun c => negb (Ascii.eqb c "_")) (list_ascii_of_string "FLIN")
  = true
  /\ str_remove "_daily.csv" "FLIN_daily.csv" = "FLIN"%string.
Proof.
  split; [reflexivity|].
  apply (etf_name_of_a_file "FLIN"). reflexivity.
Defined.

(** ** The coefficient: symmetry, range, rounding *)

Lemma Qsum_products_sym (a b : Q) (xs ys : list Q) :
  Qsum (map (fun p => (fst p - a) * (snd p - b)) (combine xs ys))
  == Qsum (map (fun p => (fst p - b) * (snd p - a)) (combine ys xs)).
Proof.
  revert ys. induction xs as [|x xs IH]; intros [|y ys]; try reflexivity.
  cbn [combine map fst snd].
  change (Qsum (?t :: ?l)) with (t + Qsum l).
  rewrite (IH ys). ring.
Qed.

Lemma Qcov_sym (xs ys : list Q) :
  length xs = length ys -> Qcov xs ys == Qcov ys xs.
Proof.
  intros H. unfold Qcov, Qlen. rewrite <- H.
  now rewrite Qsum_products_sym.
Qed.

Lemma Qclip_comp (lo hi q q' : Q) :
  q == q' -> Qclip lo hi q == Qclip lo hi q'.
Proof.
  intros E. unfold Qclip.
  destruct (Qle_bool q lo) eqn:A, (Qle_bool q' lo) eqn:A';
    destruct (Qle_bool hi q) eqn:B, (Qle_bool hi q') eqn:B';
    try reflexivity; try assumption;
    repeat match goal with
           | H : Qle_bool _ _ = true |- _ => apply Qle_bool_iff in H
           | H : Qle_bool ?u ?v = false |- _ =>
               assert (~ u <= v)
                 by (intros C; apply Qle_bool_iff in C; congruence);
               clear H
           end; lra.
Qed.

Lemma Qclip_bounds (lo hi q : Q) :
  lo <= hi -> lo <= Qclip lo hi q <= hi.
Proof.
  intros H. unfold Qclip.
  destruct (Qle_bool q lo) eqn:A; [lra|].
  destruct (Qle_bool hi q) eqn:B; [lra|].
  assert (~ q <= lo) by (intros C; apply Qle_bool_iff in C; congruence).
  assert (~ hi <= q) by (intros C; apply Qle_bool_iff in C; congruence).
  lra.
Qed.

Lemma corrcoef_sym (sqrtQ : Q -> Q) (a b : list fval) :
  length a = length b -> corrcoef sqrtQ a b = corrcoef sqrtQ b a.
Proof.
  intros Hlen. unfold corrcoef.
  destruct (all_fin a) as [xs|] eqn:Ea, (all_fin b) as [ys|] eqn:Eb;
    try reflexivity.
  assert (Hl : length xs = length ys).
  { apply all_fin_length in Ea, Eb. congruence. }
  rewrite Hl, orb_comm.
  destruct (length ys <=? 1)%nat; [reflexivity|].
  destruct (Qzerob (Qcov ys ys) || Qzerob (Qcov xs xs)); [reflexivity|].
  f_equal. apply Qred_complete, Qclip_comp.
  rewrite (Qcov_sym xs ys Hl). unfold Qdiv. ring.
Qed.

Lemma corrcoef_range (sqrtQ : Q -> Q) (a b : list fval) (r : Q) :
  corrcoef sqrtQ a b = Fin r -> -1 <= r <= 1.
Proof.
  unfold corrcoef.
  destruct (all_fin a), (all_fin b); try discriminate.
  destruct (_ <=? _)%nat; [discriminate|].
  destruct (_ || _); [discriminate|].
  intros [= <-]. rewrite Qred_correct. apply Qclip_bounds. lra.
Qed.

Lemma columns_of_swapped (m : frame) :
  col_Price (map swap_columns m) = col_GDP_USD m
  /\ col_GDP_USD (map swap_columns m) = col_Price m.
Proof.
  unfold col_Price, col_GDP_USD. rewrite !map_map. split; reflexivity.
Qed.

(** X14.  The whole-period coefficient does not depend on which column
    is correlated with which, and when it is a number it lies between -1
    and 1. *)
Theorem whole_period_pearson_is_symmetric_and_bounded
        (sqrtQ : Q -> Q) (m : frame) :
  Series_corr sqrtQ pearson (col_Price m) (col_GDP_USD m)
  = Series_corr sqrtQ pearson (col_GDP_USD m) (col_Price m)
  /\ (forall r,
        Series_corr sqrtQ pearson (col_Price m) (col_GDP_USD m) = Fin r ->
        -1 <= r <= 1).
Proof.
  split.
  - assert (E : Series_corr sqrtQ pearson (col_GDP_USD m) (col_Price m)
                = corrcoef sqrtQ (map GDP_USD (dropna m))
                           (map Price (dropna m))).
    { destruct (columns_of_swapped m) as [E1 E2]. rewrite <- E1, <- E2.
      rewrite Series_corr_frame, dropna_swap, !map_map. reflexivity. }
    rewrite E, Series_corr_frame. apply corrcoef_sym.
    now rewrite !length_map.
  - intros r. rewrite Series_corr_frame. apply corrcoef_range.
Qed.

Lemma Qround_half_even_near (t : Q) :
  - (1 # 2) <= inject_Z (Qround_half_even t) - t <= 1 # 2.
Proof.
  unfold Qround_half_even.
  pose proof (Qfloor_le t) as Hlo. pose proof (Qlt_floor t) as Hhi.
  rewrite inject_Z_plus in Hhi. change (inject_Z 1) with 1 in Hhi.
  destruct (Qcompare_spec (t - inject_Z (Qfloor t)) (1 # 2)) as [E|L|G].
  - destruct (Z.even (Qfloor t)); [lra|].
    rewrite inject_Z_plus. change (inject_Z 1) with 1. lra.
  - lra.
  - rewrite inject_Z_plus. change (inject_Z 1) with 1. lra.
Qed.

Lemma Qround_half_even_le (t : Q) (k : Z) :
  t <= inject_Z k -> (Qround_half_even t <= k)%Z.
Proof.
  intros H. unfold Qround_half_even.
  pose proof (Qfloor_le t) as Hlo.
  assert (Hf : (Qfloor t <= k)%Z).
  { rewrite <- (Qfloor_Z k). now apply Qfloor_resp_le. }
  destruct (Qcompare_spec (t - inject_Z (Qfloor t)) (1 # 2)) as [E|L|G];
    [destruct (Z.even (Qfloor t)); [assumption|]| assumption |];
    (destruct (Z.eq_dec (Qfloor t) k) as [Heq|Hne];
     [exfalso; rewrite Heq in *; lra | lia]).
Qed.

Lemma Qround_half_even_ge (t : Q) (k : Z) :
  inject_Z k <= t -> (k <= Qround_half_even t)%Z.
Proof.
  intros H. unfold Qround_half_even.
  assert (Hf : (k <= Qfloor t)%Z).
  { rewrite <- (Qfloor_Z k). now apply Qfloor_resp_le. }
  destruct (Qcompare (t - inject_Z (Qfloor t)) (1 # 2));
    [destruct (Z.even (Qfloor t))| |]; lia.
Qed.

(** X15.  The coefficient [india_pearson.py] stores is the computed one
    rounded to four decimals: a null stays null, a number moves by at most
    0.00005 and stays between -1 and 1. *)
Theorem stored_coefficient_is_close (sqrtQ : Q -> Q) (m : frame) :
  let corr := Series_corr sqrtQ pearson (col_Price m) (col_GDP_USD m) in
  (corr = NaN -> round 4 corr = NaN)
  /\ (forall r, corr = Fin r ->
        exists r', round 4 corr = Fin r'
          /\ - (1 # 20000) <= r' - r <= 1 # 20000
          /\ -1 <= r' <= 1).
Proof.
  cbv zeta. split; [now intros ->|].
  intros r E.
  assert (Hr : -1 <= r <= 1)
    by (rewrite Series_corr_frame in E; exact (corrcoef_range _ _ _ _ E)).
  rewrite E. cbn [round]. eexists. split; [reflexivity|].
  change (inject_Z (10 ^ Z.of_nat 4)) with (inject_Z 10000).
  rewrite Qred_correct.
  pose proof (Qround_half_even_near (r * inject_Z 10000)) as Hn.
  assert (Hle : (Qround_half_even (r * inject_Z 10000) <= 10000)%Z)
    by (apply Qround_half_even_le; change (inject_Z 10000) with 10000; lra).
  assert (Hge : (-10000 <= Qround_half_even (r * inject_Z 10000))%Z)
    by (apply Qround_half_even_ge;
        change (inject_Z (-10000)) with (-10000);
        change (inject_Z 10000) with 10000; lra).
  rewrite Zle_Qle in Hle, Hge.
  change (inject_Z 10000) with 10000 in *.
  change (inject_Z (-10000)) with (-10000) in *.
  set (z := inject_Z (Qround_half_even (r * 10000))) in *.
  setoid_replace (z / 10000) with (z * (1 # 10000)) by field.
  lra.
Qed.

(** ** The normalized series (lines 62-63 of [india_pearson.py], lines
       63-64 of [streamlit_app.py]) *)

Lemma fdiv_by_one (v : fval) (x0 : Q) :
  ~ x0 == 0 -> fdiv (fdiv v (Fin x0)) (Fin 1) = fdiv v (Fin x0).
Proof.
  intros H0.
  assert (Hz : Qzerob x0 = false).
  { unfold Qzerob. destruct (Qeq_bool x0 0) eqn:E; [|reflexivity].
    apply Qeq_bool_iff in E. contradiction. }
  destruct v as [q|s|]; cbn [fdiv]; rewrite ?Hz; cbn [fdiv].
  - change (Qzerob 1) with false. cbv iota. f_equal.
    apply Qred_complete. rewrite Qred_correct. now field.
  - change (Qnegb 1) with false. now rewrite xorb_false_r.
  - reflexivity.
Qed.

(** X16.  When the first cell is a finite number other than zero, the
    normalized series starts at 1, and normalizing it again changes
    nothing. *)
Theorem normalized_starts_at_one_and_is_stable (x0 : Q) (rest : list fval) :
  ~ x0 == 0 ->
  hd_error (normalized (Fin x0 :: rest)) = Some (Fin 1)
  /\ normalized (normalized (Fin x0 :: rest)) = normalized (Fin x0 :: rest).
Proof.
  intros H0.
  assert (Hz : Qzerob x0 = false).
  { unfold Qzerob. destruct (Qeq_bool x0 0) eqn:E; [|reflexivity].
    apply Qeq_bool_iff in E. contradiction. }
  assert (Hone : fdiv (Fin x0) (Fin x0) = Fin 1).
  { cbn [fdiv]. rewrite Hz. f_equal.
    change 1 with (Qred 1). apply Qred_complete. now field. }
  unfold normalized, div_by_first. cbn [map hd_error]. rewrite Hone.
  split; [reflexivity|]. cbn [map]. f_equal.
  rewrite map_map. apply map_ext. intros v. now apply fdiv_by_one.
Qed.

Lemma normalized_starts_at_one_and_is_stable_witness :
  ~ 100 == 0
  /\ normalized (normalized (values gdp_three)) = normalized (values gdp_three).
Proof.
  assert (H : ~ 100 == 0) by discriminate.
  split; [exact H|].
  exact (proj2 (normalized_starts_at_one_and_is_stable
                  100 [Fin 110; Fin 121] H)).
Defined.

(** X17.  When the first cell is zero, no cell of the normalized series
    is a finite number: zero cells, the first among them, become null and
    all other cells infinite. *)
Theorem normalized_by_zero_has_no_number (x0 : Q) (rest : list fval) :
  x0 == 0 ->
  Forall (fun v => is_fin v = false) (normalized (Fin x0 :: rest))
  /\ hd_error (normalized (Fin x0 :: rest)) = Some NaN.
Proof.
  intros H0.
  assert (Hz : Qzerob x0 = true) by (now apply Qeq_bool_iff).
  unfold normalized, div_by_first. split.
  - apply Forall_forall. intros v Hv.
    apply in_map_iff in Hv as (u & <- & _).
    destruct u as [q|s|]; cbn [fdiv]; rewrite ?Hz;
      [destruct (Qzerob q)|..]; reflexivity.
  - cbn [map hd_error fdiv]. now rewrite Hz.
Qed.

Lemma normalized_by_zero_has_no_number_witness :
  0 == 0
  /\ Forall (fun v => is_fin v = false) (normalized [Fin 0; Fin 5; Fin 0])
  /\ hd_error (normalized [Fin 0; Fin 5; Fin 0]) = Some NaN.
Proof.
  split; [reflexivity|].
  apply (normalized_by_zero_has_no_number 0 [Fin 5; Fin 0]). reflexivity.
Defined.

(** ** The two Spearman coefficients, and nulls under the rolling
       window *)

Section Agreement.

Variable sqrtQ : Q -> Q.

Lemma Series_corr_spearman_frame (m : frame) :
  Series_corr sqrtQ spearman (col_Price m) (col_GDP_USD m)
  = corrcoef sqrtQ (rank (map Price (dropna m)))
             (rank (map GDP_USD (dropna m))).
Proof.
  unfold Series_corr, Series_align.
  assert (Hix : index (col_Price m) = index (col_GDP_USD m)).
  { unfold index, col_Price, col_GDP_USD. now rewrite !map_map. }
  rewrite Hix, list_Z_eqb_refl.
  destruct m as [|r m]; [reflexivity|].
  cbn [length col_Price map Nat.eqb].
  unfold nancorr, valid_pairs, values, col_Price, col_GDP_USD.
  change (?a :: map ?f m) with (map f (r :: m)).
  rewrite !map_map. cbn [snd].
  rewrite combine_map_same, filter_map_comm, !map_map. cbn [fst snd].
  fold (dropna (r :: m)).
  destruct (Nat.ltb_spec (length (map (fun x => (Price x, GDP_USD x))
                                      (dropna (r :: m)))) 1) as [H|H];
    [|reflexivity].
  rewrite length_map in H. symmetry. apply corrcoef_short.
  rewrite rank_length, length_map. lia.
Qed.

(** X18.  On a frame with unique quarter labels and non-null cells, the
    rolling Spearman of [india_pearson.py] with a window as long as the
    frame gives, at the last position, the Spearman coefficient
    [streamlit_app.py] computes for the whole frame. *)
Theorem spearman_of_both_scripts_agree (m : frame) :
  non_null m = true -> NoDup (map Date m) -> m <> [] ->
  nth_error (rolling_spearman sqrtQ (length m) m) (length m - 1)
  = Some (Series_corr sqrtQ spearman (col_Price m) (col_GDP_USD m)).
Proof.
  intros Hnn Hnd Hne.
  assert (Hlen : (0 < length m)%nat)
    by (destruct m; [now elim Hne|simpl; lia]).
  rewrite rolling_spearman_nth by lia. f_equal. cbv zeta.
  assert (HW : records (length m) (length m - 1) m = m).
  { unfold records, window, slice, window_start.
    replace (length m - 1 + 1 - length m)%nat with 0%nat by lia.
    replace (length m - 1 + 1 - 0)%nat with (length m) by lia.
    apply firstn_all. }
  rewrite HW.
  destruct (non_null_columns m Hnn) as [HP _].
  rewrite forallb_filter_id, length_map, Nat.leb_refl by assumption.
  rewrite spearman_corr_records, Series_corr_spearman_frame; auto.
  now rewrite dropna_non_null.
Qed.

Lemma not_finite_column {R : Type} (f : R -> fval) (W : list R) (r : R) :
  In r W -> is_fin (f r) = false -> all_finite (map f W) = false.
Proof.
  unfold all_finite. intros Hin Hf.
  destruct (forallb is_fin (map f W)) eqn:E; [|reflexivity].
  rewrite forallb_forall in E.
  rewrite (E (f r)) in Hf; [discriminate | now apply in_map].
Qed.

(** X19.  A record with a null (or infinite) cell makes the rolling
    Pearson null at every position whose window holds it; the frame of
    [streamlit_app.py], which keeps such records, loses these positions
    of its rolling chart. *)
Theorem null_record_blanks_its_windows (w i : nat) (m : frame) (r : row) :
  (i < length m)%nat -> (w - 1 <= i)%nat ->
  In r (slice (i + 1 - w) (i + 1) m) ->
  is_fin (Price r) = false \/ is_fin (GDP_USD r) = false ->
  nth_error (rolling_pearson sqrtQ w m) i = Some NaN.
Proof.
  intros Hi Hw Hin Hr.
  rewrite rolling_pearson_nth by assumption. f_equal.
  rewrite rolling_pearson_window by (assumption || lia).
  destruct Hr as [Hr|Hr].
  - apply corrcoef_not_finite_l. eapply not_finite_column; eauto.
  - apply corrcoef_not_finite_r. eapply not_finite_column; eauto.
Qed.

End Agreement.

(** ** Average ranks (lines 82-83 of [india_pearson.py], line 59 of
       [streamlit_app.py]) *)

Lemma fval_trichotomy (u v : fval) :
  notna u = true -> notna v = true ->
  (Nat.b2n (fltb u v) + Nat.b2n (feqb u v) + Nat.b2n (fltb v u) = 1)%nat.
Proof.
  destruct u as [x|[|]|], v as [y|[|]|]; simpl; try discriminate;
    try reflexivity.
  intros _ _.
  destruct (Qle_bool y x) eqn:A, (Qle_bool x y) eqn:B,
           (Qeq_bool x y) eqn:C; simpl; try reflexivity; exfalso;
    repeat match goal with
           | H : Qle_bool _ _ = true |- _ => apply Qle_bool_iff in H
           | H : Qeq_bool _ _ = true |- _ => apply Qeq_bool_iff in H
           | H : Qle_bool ?a ?b = false |- _ =>
               assert (~ a <= b)
                 by (intros K; apply Qle_bool_iff in K; congruence);
               clear H
           | H : Qeq_bool ?a ?b = false |- _ =>
               assert (~ a == b)
                 by (intros K; apply Qeq_bool_iff in K; congruence);
               clear H
           end; lra.
Qed.

Lemma count_as_sum {A : Type} (p : A -> bool) (l : list A) :
  length (filter p l) = list_sum (map (fun u => Nat.b2n (p u)) l).
Proof.
  induction l as [|x l IH]; simpl; [reflexivity|].
  destruct (p x); simpl; lia.
Qed.

Lemma list_sum_add {A : Type} (f g : A -> nat) (l : list A) :
  list_sum (map (fun x => f x + g x)%nat l)
  = (list_sum (map f l) + list_sum (map g l))%nat.
Proof. induction l as [|x l IH]; simpl; lia. Qed.

Lemma list_sum_ext_in {A : Type} (f g : A -> nat) (l : list A) :
  (forall x, In x l -> f x = g x) ->
  list_sum (map f l) = list_sum (map g l).
Proof.
  induction l as [|x l IH]; simpl; intros H; [reflexivity|].
  rewrite (H x), IH by auto. reflexivity.
Qed.

Lemma list_sum_const {A : Type} (c : nat) (l : list A) :
  list_sum (map (fun _ => c) l) = (length l * c)%nat.
Proof. induction l as [|x l IH]; simpl; lia. Qed.

Lemma list_sum_cons (a : nat) (l : list nat) :
  list_sum (a :: l) = (a + list_sum l)%nat.
Proof. reflexivity. Qed.

Lemma count_exchange {A : Type} (p : A -> A -> bool) (l1 l2 : list A) :
  list_sum (map (fun v => length (filter (fun u => p u v) l1)) l2)
  = list_sum (map (fun u => length (filter (fun v => p u v) l2)) l1).
Proof.
  induction l1 as [|x l1 IH].
  - cbn [filter length map list_sum]. now rewrite list_sum_const, Nat.mul_0_r.
  - cbn [map]. rewrite list_sum_cons, <- IH.
    rewrite (count_as_sum (fun v => p x v) l2), <- list_sum_add.
    apply list_sum_ext_in. intros v _. cbn [filter].
    destruct (p x v); simpl; lia.
Qed.

Lemma rank_counts (vs : list fval) :
  forallb notna vs = true ->
  (2 * list_sum (map (count_lt vs) vs) + list_sum (map (count_eq vs) vs)
   = length vs * length vs)%nat.
Proof.
  intros Hnn. rewrite forallb_forall in Hnn.
  assert (Hgt : list_sum (map (fun v => length (filter (fun u => fltb v u) vs))
                              vs)
                = list_sum (map (count_lt vs) vs)).
  { unfold count_lt. symmetry.
    apply (count_exchange (fun u v => fltb u v) vs vs). }
  assert (Hrow : forall v, In v vs ->
             (count_lt vs v + count_eq vs v
              + length (filter (fun u => fltb v u) vs) = length vs)%nat).
  { intros v Hv. unfold count_lt, count_eq.
    rewrite !count_as_sum, <- !list_sum_add.
    rewrite (list_sum_ext_in _ (fun _ => 1%nat)).
    - rewrite list_sum_const. lia.
    - intros u Hu. apply fval_trichotomy; auto. }
  pose proof (list_sum_ext_in _ (fun _ => length vs) vs Hrow) as Hsum.
  rewrite !list_sum_add, list_sum_const, Hgt in Hsum. lia.
Qed.

Lemma Qsum_of_ranks {A : Type} (a b : A -> nat) (l : list A) :
  Qsum (map (fun v => Qred (inject_Z (Z.of_nat (a v))
                            + (inject_Z (Z.of_nat (b v)) + 1) / 2)) l)
  == inject_Z (Z.of_nat (list_sum (map a l)))
     + (inject_Z (Z.of_nat (list_sum (map b l))) + Qlen l) / 2.
Proof.
  induction l as [|x l IH].
  - unfold Qlen. simpl. reflexivity.
  - rewrite Qlen_cons. cbn [map]. rewrite !list_sum_cons.
    change (Qsum (?t :: ?r)) with (t + Qsum r).
    rewrite IH, Qred_correct, !Nat2Z.inj_add, !inject_Z_plus. field.
Qed.

Lemma self_is_counted (vs : list fval) (v : fval) :
  In v vs -> notna v = true ->
  (1 <= count_eq vs v)%nat /\ (count_lt vs v + count_eq vs v <= length vs)%nat.
Proof.
  intros Hin Hv. unfold count_lt, count_eq. split.
  - assert (Hself : feqb v v = true).
    { destruct v as [x|[|]|]; simpl; try reflexivity; try discriminate.
      now apply Qeq_bool_iff. }
    assert (H : In v (filter (fun u => feqb u v) vs))
      by (apply filter_In; auto).
    destruct (filter (fun u => feqb u v) vs); [destruct H|simpl; lia].
  - rewrite !count_as_sum, <- list_sum_add.
    rewrite <- (Nat.mul_1_r (length vs)), <- (list_sum_const 1 vs).
    clear Hin. induction vs as [|u vs IH]; simpl; [lia|].
    assert (Nat.b2n (fltb u v) + Nat.b2n (feqb u v) <= 1)%nat; [|lia].
    destruct u as [x|[|]|], v as [y|[|]|]; simpl; try lia.
    destruct (Qle_bool y x) eqn:A, (Qeq_bool x y) eqn:C; simpl; try lia.
    exfalso. apply Qeq_bool_iff in C.
    assert (~ y <= x) by (intros K; apply Qle_bool_iff in K; congruence).
    lra.
Qed.

(** X20.  On non-null cells [rank] gives every cell a number between 1
    and the number of cells, and the ranks add up to [n (n + 1) / 2]
    whatever the ties: tied cells share the average of the positions they
    occupy. *)
Theorem ranks_are_average_ranks (vs : list fval) :
  forallb notna vs = true ->
  exists rs, rank vs = map Fin rs
    /\ Forall (fun q => 1 <= q <= Qlen vs) rs
    /\ Qsum rs == Qlen vs * (Qlen vs + 1) / 2.
Proof.
  intros Hnn.
  exists (map (fun v => Qred (inject_Z (Z.of_nat (count_lt vs v))
                             + (inject_Z (Z.of_nat (count_eq vs v)) + 1) / 2))
              vs).
  pose proof Hnn as Hall. rewrite forallb_forall in Hall.
  split; [|split].
  - unfold rank. rewrite map_map. apply map_ext_in.
    intros v Hv. now rewrite (Hall v Hv).
  - apply Forall_forall. intros q Hq.
    apply in_map_iff in Hq as (v & <- & Hv).
    destruct (self_is_counted vs v Hv (Hall v Hv)) as [H1 H2].
    rewrite Qred_correct. unfold Qlen.
    assert (G1 : 1 <= inject_Z (Z.of_nat (count_eq vs v))).
    { change 1 with (inject_Z 1). rewrite <- Zle_Qle. lia. }
    assert (G0 : 0 <= inject_Z (Z.of_nat (count_lt vs v))).
    { change 0 with (inject_Z 0). rewrite <- Zle_Qle. lia. }
    assert (G2 : inject_Z (Z.of_nat (count_lt vs v))
                 + inject_Z (Z.of_nat (count_eq vs v))
                 <= inject_Z (Z.of_nat (length vs))).
    { rewrite <- inject_Z_plus, <- Zle_Qle. lia. }
    set (L := inject_Z (Z.of_nat (count_lt vs v))) in *.
    set (E := inject_Z (Z.of_nat (count_eq vs v))) in *.
    setoid_replace ((E + 1) / 2) with ((E + 1) * (1 # 2)) by field.
    split; lra.
  - rewrite Qsum_of_ranks.
    pose proof (rank_counts vs Hnn) as Hc.
    apply (f_equal Z.of_nat) in Hc.
    rewrite Nat2Z.inj_add, !Nat2Z.inj_mul in Hc.
    apply (f_equal inject_Z) in Hc.
    rewrite inject_Z_plus, !inject_Z_mult in Hc.
    change (inject_Z (Z.of_nat 2)) with 2 in Hc.
    unfold Qlen.
    set (L := inject_Z (Z.of_nat (list_sum (map (count_lt vs) vs)))) in *.
    set (E := inject_Z (Z.of_nat (list_sum (map (count_eq vs) vs)))) in *.
    set (n := inject_Z (Z.of_nat (length vs))) in *.
    assert (Hc' : 2 * L + E == n * n) by (rewrite Hc; reflexivity).
    setoid_replace (L + (E + n) / 2) with ((2 * L + E + n) / 2) by field.
    rewrite Hc'. field.
Qed.

Lemma ranks_are_average_ranks_witness :
  forallb notna [Fin 3; Fin 1; Fin 3; Fin 2] = true
  /\ exists rs, rank [Fin 3; Fin 1; Fin 3; Fin 2] = map Fin rs
       /\ Forall (fun q => 1 <= q <= Qlen [Fin 3; Fin 1; Fin 3; Fin 2]) rs
       /\ Qsum rs == Qlen [Fin 3; Fin 1; Fin 3; Fin 2]
                     * (Qlen [Fin 3; Fin 1; Fin 3; Fin 2] + 1) / 2.
Proof.
  split; [reflexivity|].
  apply (ranks_are_average_ranks [Fin 3; Fin 1; Fin 3; Fin 2]). reflexivity.
Defined.

(** ** Trimming the header names (line 32 of [india_pearson.py], lines 13
       and 24 of [streamlit_app.py]) *)

Lemma lstrip_head (l : list ascii) (c : ascii) (t : list ascii) :
  lstrip l = c :: t -> isspace c = false.
Proof.
  induction l as [|x l IH]; simpl; [discriminate|].
  destruct (isspace x) eqn:E; [assumption|]. now intros [= <- _].
Qed.

Lemma lstrip_fixed (l : list ascii) :
  (forall c t, l = c :: t -> isspace c = false) -> lstrip l = l.
Proof.
  destruct l as [|x l]; [reflexivity|]. intros H. simpl.
  now rewrite (H x l eq_refl).
Qed.

Lemma lstrip_snoc (a : list ascii) (c : ascii) :
  isspace c = false -> lstrip (a ++ [c]) = lstrip a ++ [c].
Proof.
  intros Hc. induction a as [|x a IH]; simpl; [now rewrite Hc|].
  destruct (isspace x); [assumption|reflexivity].
Qed.

(** X21.  A trimmed name neither starts nor ends with white space, and
    trimming it again gives the same name. *)
Theorem strip_trims_both_ends (s : string) :
  let r := list_ascii_of_string (strip s) in
  (forall c t, r = c :: t -> isspace c = false)
  /\ (forall c t, rev r = c :: t -> isspace c = false)
  /\ strip (strip s) = strip s.
Proof.
  cbv zeta. unfold strip at 1 2.
  rewrite list_ascii_of_string_of_list_ascii.
  set (t := lstrip (list_ascii_of_string s)).
  set (u := lstrip (rev t)).
  assert (Hu : forall c r, u = c :: r -> isspace c = false)
    by (intros c r; apply lstrip_head).
  assert (Hr : forall c r, rev u = c :: r -> isspace c = false).
  { unfold u. destruct t as [|c0 t0] eqn:Et; [simpl; discriminate|].
    assert (Hc0 : isspace c0 = false) by (eapply lstrip_head; exact Et).
    cbn [rev]. rewrite lstrip_snoc by assumption.
    rewrite rev_app_distr. cbn [rev List.app]. now intros c r [= <- _]. }
  split; [exact Hr|]. split; [now rewrite rev_involutive|].
  unfold strip. rewrite list_ascii_of_string_of_list_ascii.
  fold t. fold u.
  now rewrite (lstrip_fixed _ Hr), rev_involutive, (lstrip_fixed _ Hu).
Qed.

(** ** Percent change does not see the normalization *)

(** X22.  On finite non-zero cells the period-over-period change of the
    normalized series is that of the series itself. *)
Theorem pct_change_of_normalized (xs : list fval) :
  forallb nonzero xs = true ->
  pct_change (normalized xs) = pct_change xs.
Proof.
  intros Hall. destruct (nonzero_cells xs Hall) as (qs & ->).
  destruct qs as [|x0 rest]; [reflexivity|].
  cbn [map forallb] in Hall. apply andb_prop in Hall as [H0 Hrest].
  cbn [nonzero] in H0. apply negb_true_iff in H0.
  pose proof (Qzerob_false _ H0) as H0'.
  unfold normalized, div_by_first. cbn [map].
  rewrite !pct_change_cons. f_equal.
  assert (G : forall (p : Q) (l : list Q),
             ~ p == 0 -> forallb nonzero (map Fin l) = true ->
             pct_steps (fdiv (Fin p) (Fin x0))
                       (map (fun x => fdiv x (Fin x0)) (map Fin l))
             = pct_steps (Fin p) (map Fin l)).
  { intros p l. revert p. induction l as [|x l IH]; intros p Hp Hl;
      [reflexivity|].
    cbn [map forallb nonzero] in Hl. apply andb_prop in Hl as [Hx Hl].
    apply negb_true_iff in Hx. pose proof (Qzerob_false _ Hx) as Hx'.
    cbn [map pct_steps]. rewrite (IH x Hx' Hl). f_equal.
    assert (Hp0 : Qzerob p = false).
    { unfold Qzerob. destruct (Qeq_bool p 0) eqn:E; [|reflexivity].
      apply Qeq_bool_iff in E. contradiction. }
    assert (Hq : Qzerob (Qred (p / x0)) = false).
    { unfold Qzerob. destruct (Qeq_bool (Qred (p / x0)) 0) eqn:E;
        [|reflexivity].
      apply Qeq_bool_iff in E. rewrite Qred_correct in E.
      exfalso. apply Hp.
      setoid_replace p with (p / x0 * x0) by (now field).
      rewrite E. ring. }
    cbn [fdiv fsub]. rewrite H0, Hp0. cbn [fdiv fsub]. rewrite Hq.
    cbn [fsub]. f_equal. apply Qred_complete.
    assert (Hd : Qred (Qred (x / x0) / Qred (p / x0)) == Qred (x / p)).
    { rewrite !Qred_correct. now field. }
    rewrite Hd. reflexivity. }
  apply G; assumption.
Qed.

Lemma pct_change_of_normalized_witness :
  forallb nonzero (values gdp_three) = true
  /\ pct_change (normalized (values gdp_three))
     = pct_change (values gdp_three).
Proof.
  split; [reflexivity|].
  apply (pct_change_of_normalized (values gdp_three)). reflexivity.
Defined.

(** ** Instances *)

Lemma gdp_without_a_column_ends_the_run_witness :
  (str_in "Date" (map strip ["Date"; "GDP"]%string) = false
   \/ str_in "GDP_USD" (map strip ["Date"; "GDP"]%string) = false)
  /\ load_gdp_csv iso_date decimal
                  (Some [["Date"; "GDP"]; ["2020-03-31"; "100"]]%string)
     = inl (KeyError "GDP_USD").
Proof.
  split; [right; reflexivity|].
  apply (gdp_without_a_column_ends_the_run sqrt6 iso_date decimal
           ["Date"; "GDP"]%string [["2020-03-31"; "100"]]%string).
  right. reflexivity.
Defined.

Lemma csv_suffix_test_is_dead_witness :
  endswith "AAA_daily.csv" "_daily.csv" = true
  /\ endswith "AAA_daily.csv" ".csv" = true.
Proof.
  split; [reflexivity|].
  apply (csv_suffix_test_is_dead sqrt6 iso_date decimal []
           ("AAA_daily.csv"%string, etf_five) (mkapp [] [])).
  reflexivity.
Defined.

Lemma spearman_of_both_scripts_agree_witness :
  non_null ten_quarters = true /\ NoDup (map Date ten_quarters)
  /\ ten_quarters <> []
  /\ nth_error (rolling_spearman sqrt6 10 ten_quarters) 9
     = Some (Series_corr sqrt6 spearman (col_Price ten_quarters)
                         (col_GDP_USD ten_quarters)).
Proof.
  assert (Hnd : NoDup (map Date ten_quarters)).
  { apply (NoDup_map_inv (fun q => Z.to_nat (q - 8080))).
    rewrite map_map. apply (seq_NoDup 10 0). }
  assert (Hne : ten_quarters <> []) by discriminate.
  split; [reflexivity|]. split; [exact Hnd|]. split; [exact Hne|].
  exact (spearman_of_both_scripts_agree sqrt6 ten_quarters eq_refl Hnd Hne).
Defined.

Lemma null_record_blanks_its_windows_witness :
  In (mkrow 8081%Z (Fin 11) NaN) (slice 1 3 frame_with_gap)
  /\ nth_error (rolling_pearson sqrt6 2 frame_with_gap) 2 = Some NaN.
Proof.
  assert (Hin : In (mkrow 8081%Z (Fin 11) NaN) (slice 1 3 frame_with_gap))
    by (left; reflexivity).
  split; [exact Hin|].
  apply (null_record_blanks_its_windows sqrt6 2 2 frame_with_gap
           (mkrow 8081%Z (Fin 11) NaN)).
  - simpl. lia.
  - simpl. lia.
  - exact Hin.
  - right. reflexivity.
Defined.
